(** * On-boarding Mentor: the chat manager of [pages/rag_agents.py]

    A shallow embedding of the prompt router, the document loader, the
    diagram extractor, the stall detector, the history sanitizer and the
    presentation loop, with the proxy's termination tests, the streaming
    generators and the chat loop of the start page [streamlit_app.py],
    followed by the properties proved about them.

    Conventions of the embedding.
    - A Python [str] is a [string]; a character stands for the code point
      of the same number, so the strings covered are those over the code
      points below 256.  [lower] and [strip] follow [str.lower] and
      [str.strip] on that range.
    - A Python exception is a [Raise] result; a function that can raise
      returns [result].
    - A [dict] is an association list in insertion order, which is the
      order Python iterates it in.
    - The external agent conversation ([initiate_chat]) is a function
      argument: the program only reads the history it returns. *)

From Stdlib Require Import String Ascii List Bool Arith ZArith Lia.
From Equations Require Import Equations.
Import ListNotations.
Open Scope list_scope.
Open Scope string_scope.

(* ===================================================================== *)
(** * Python values used by the program                                    *)
(* ===================================================================== *)

Module Py.

(** The exceptions the modelled code can raise. *)
Inductive exn : Type :=
| KeyError
| AttributeError
| NotADirectoryError
| IsADirectoryError
| FileNotFoundError
| UnicodeDecodeError
| PermissionError.

Inductive result (A : Type) : Type :=
| Ok (a : A)
| Raise (e : exn).
Arguments Ok {A} a.
Arguments Raise {A} e.

Definition bind {A B : Type} (m : result A) (k : A -> result B) : result B :=
  match m with
  | Ok a => k a
  | Raise e => Raise e
  end.

(** ** Strings *)

(** The newline character, written [\n] in the source. *)
Definition nl : string := String "010"%char EmptyString.

(** [s.startswith(k)] *)
Fixpoint startswith (k s : string) : bool :=
  match k, s with
  | EmptyString, _ => true
  | String _ _, EmptyString => false
  | String a k', String b s' => Ascii.eqb a b && startswith k' s'
  end.

(** [k in s] for strings: [k] occurs in [s] as a contiguous run. *)
Fixpoint contains (k s : string) : bool :=
  startswith k s
  || match s with
     | EmptyString => false
     | String _ s' => contains k s'
     end.

(** [s.endswith(k)]: some suffix of [s] is [k]. *)
Fixpoint endswith (k s : string) : bool :=
  String.eqb k s
  || match s with
     | EmptyString => false
     | String _ s' => endswith k s'
     end.

(** [str.lower] on one code point below 256: A..Z, and the Latin-1
    capitals U+00C0..U+00DE except the multiplication sign U+00D7, move up
    by 32; everything else is kept. *)
Definition lower_char (c : ascii) : ascii :=
  let n := nat_of_ascii c in
  if (((65 <=? n) && (n <=? 90))
      || ((192 <=? n) && (n <=? 214))
      || ((216 <=? n) && (n <=? 222)))%nat
  then ascii_of_nat (n + 32)
  else c.

(** [s.lower()] *)
Fixpoint lower (s : string) : string :=
  match s with
  | EmptyString => EmptyString
  | String c s' => String (lower_char c) (lower s')
  end.

(** [str.isspace] on one code point below 256: U+0009..U+000D,
    U+001C..U+0020, U+0085 and U+00A0. *)
Definition isspace (c : ascii) : bool :=
  let n := nat_of_ascii c in
  (((9 <=? n) && (n <=? 13))
   || ((28 <=? n) && (n <=? 32))
   || (n =? 133)
   || (n =? 160))%nat.

Fixpoint lstrip (s : string) : string :=
  match s with
  | EmptyString => EmptyString
  | String c s' => if isspace c then lstrip s' else s
  end.

Fixpoint rstrip (s : string) : string :=
  match s with
  | EmptyString => EmptyString
  | String c s' =>
      match rstrip s' with
      | EmptyString => if isspace c then EmptyString else String c EmptyString
      | r => String c r
      end
  end.

(** [s.strip()] *)
Definition strip (s : string) : string := rstrip (lstrip s).

(** [sep.join(xs)] *)
Fixpoint join (sep : string) (xs : list string) : string :=
  match xs with
  | [] => EmptyString
  | x :: rest =>
      match rest with
      | [] => x
      | _ :: _ => x ++ sep ++ join sep rest
      end
  end.

(** [x in xs] for a list of strings. *)
Definition mem (x : string) (xs : list string) : bool :=
  existsb (String.eqb x) xs.

(** [xs[-n:]]: the last [n] elements, all of them when there are fewer. *)
Definition last_n {A : Type} (n : nat) (xs : list A) : list A :=
  skipn (List.length xs - n) xs.

(** ** Dictionaries with string keys, in insertion order *)

Definition dict (V : Type) : Type := list (string * V).

Fixpoint dict_get {V : Type} (k : string) (d : dict V) : option V :=
  match d with
  | [] => None
  | (k', v) :: d' => if String.eqb k k' then Some v else dict_get k d'
  end.

(** [d[k] = v]: an existing key keeps its place, a new one goes last. *)
Fixpoint dict_set {V : Type} (k : string) (v : V) (d : dict V) : dict V :=
  match d with
  | [] => [(k, v)]
  | (k', v') :: d' =>
      if String.eqb k k' then (k', v) :: d' else (k', v') :: dict_set k v d'
  end.

(** [d.get(k, default)] *)
Definition dict_get_default {V : Type} (k : string) (default : V) (d : dict V) : V :=
  match dict_get k d with
  | Some v => v
  | None => default
  end.

(** [d.values()] and [d.items()] *)
Definition values {V : Type} (d : dict V) : list V := map snd d.
Definition items {V : Type} (d : dict V) : list (string * V) := d.

End Py.
Import Py.

Notation "x <- m ;; k" := (bind m (fun x => k))
  (at level 61, m at next level, right associativity).

(* ===================================================================== *)
(** * class Config                                                         *)
(* ===================================================================== *)

Module Config.

Definition SEED : nat := 42.

Definition ORG_KEYWORDS : list string :=
  ["org"; "organization"; "structure";
   "team"; "manager"; "lead"; "report";
   "department"; "chart"].

Definition TERMINATION_PHRASES : list string :=
  ["I'm unable to provide";
   "I am sorry";
   "need more information";
   "please provide a question";
   "please clarify";
   "no relevant answer";
   "I apologize"].

(** What a class attribute can hold.  The two API keys come from
    [LLMSetup.load_api_keys()], which is outside the modelled files. *)
Inductive value : Type :=
| Int (n : nat)
| StrList (l : list string)
| External.

(** The names the class body binds, in order, with their values. *)
Definition namespace : dict value :=
  [("GEMINI1_API_KEY", External);
   ("GEMINI2_API_KEY", External);
   ("SEED", Int SEED);
   ("ORG_KEYWORDS", StrList ORG_KEYWORDS);
   ("TERMINATION_PHRASES", StrList TERMINATION_PHRASES)].

(** [Config.<name>]: attribute lookup on the class. *)
Definition getattr (name : string) : result value :=
  match dict_get name namespace with
  | Some v => Ok v
  | None => Raise AttributeError
  end.

End Config.

(* ===================================================================== *)
(** * class DocumentLoader                                                 *)
(* ===================================================================== *)

Module DocumentLoader.

(** What the loader can observe of the file system below the working
    directory.  A regular file carries what [f.read()] returns for it when
    opened in text mode with [encoding="utf-8"]: its decoded text, or
    nothing when its bytes are not valid UTF-8.  A directory carries its
    entries by name, subdirectories included.  [Dangling] is a symbolic
    link whose target does not exist: its directory lists it, but it does
    not exist for [os.path.exists] and cannot be opened.  [Unreadable] is
    a regular file the process has no permission to read. *)
#[warnings="-register-all"]
Inductive node : Type :=
| File (text : option string)
| Dir (entries : list (string * node))
| Dangling
| Unreadable.

(** A relative path, one component per element:
    ["uploaded_docs/org"] is [["uploaded_docs"; "org"]]. *)
Definition path : Type := list string.

Fixpoint resolve (cwd : node) (p : path) : option node :=
  match p with
  | [] => Some cwd
  | name :: rest =>
      match cwd with
      | Dir entries =>
          match dict_get name entries with
          | Some n => resolve n rest
          | None => None
          end
      | File _ | Dangling | Unreadable => None
      end
  end.

(** [os.path.exists(p)]: false for a dangling link. *)
Definition exists_ (cwd : node) (p : path) : bool :=
  match resolve cwd p with
  | Some Dangling | None => false
  | Some (File _) | Some (Dir _) | Some Unreadable => true
  end.

(** [os.listdir(p)]: the names of all entries, whatever their kind. *)
Definition listdir (cwd : node) (p : path) : result (list string) :=
  match resolve cwd p with
  | Some (Dir entries) => Ok (map fst entries)
  | Some (File _) | Some Unreadable => Raise NotADirectoryError
  | Some Dangling | None => Raise FileNotFoundError
  end.

(** [os.path.join(p, fname)] *)
Definition join_path (p : path) (fname : string) : path := (p ++ [fname])%list.

(** [with open(p, "r", encoding="utf-8") as f: f.read()] *)
Definition read_text (cwd : node) (p : path) : result string :=
  match resolve cwd p with
  | Some (File (Some text)) => Ok text
  | Some (File None) => Raise UnicodeDecodeError
  | Some (Dir _) => Raise IsADirectoryError
  | Some Unreadable => Raise PermissionError
  | Some Dangling | None => Raise FileNotFoundError
  end.

Definition documents : Type := dict (dict string).

Definition base_dirs : dict path :=
  [("personal", ["uploaded_docs"; "personal"]);
   ("org", ["uploaded_docs"; "org"])].

(** [d[k]] *)
Definition getitem {V : Type} (k : string) (d : dict V) : result V :=
  match dict_get k d with
  | Some v => Ok v
  | None => Raise KeyError
  end.

(** The inner loop, [for fname in os.listdir(path)], over the names still
    to visit. *)
Fixpoint load_files (cwd : node) (p : path) (category : string)
    (fnames : list string) (docs : documents) : result documents :=
  match fnames with
  | [] => Ok docs
  | fname :: rest =>
      if endswith ".md" fname then
        text <- read_text cwd (join_path p fname) ;;
        inner <- getitem category docs ;;
        load_files cwd p category rest
          (dict_set category (dict_set fname text inner) docs)
      else load_files cwd p category rest docs
  end.

(** The outer loop, [for category, path in base_dirs.items()]. *)
Fixpoint load_categories (cwd : node) (dirs : list (string * path))
    (docs : documents) : result documents :=
  match dirs with
  | [] => Ok docs
  | (category, p) :: rest =>
      if exists_ cwd p then
        fnames <- listdir cwd p ;;
        docs' <- load_files cwd p category fnames docs ;;
        load_categories cwd rest docs'
      else load_categories cwd rest docs
  end.

Definition load_documents (cwd : node) : result documents :=
  load_categories cwd (items base_dirs) [("personal", []); ("org", [])].

End DocumentLoader.

(* ===================================================================== *)
(** * class MermaidExtractor                                               *)
(* ===================================================================== *)

Module MermaidExtractor.

(** [s[n:]] *)
Fixpoint drop (n : nat) (s : string) : string :=
  match n, s with
  | O, _ => s
  | S _, EmptyString => EmptyString
  | S n', String _ s' => drop n' s'
  end.

(** The two literal parts of the pattern [```mermaid\n(.*?)```]. *)
Definition opener : string := "```mermaid" ++ nl.
Definition fence : string := "```".

(** [(.*?)stop] under [re.DOTALL], tried at the start of [s]: the lazy
    group takes no character, then one more at a time, any character
    allowed, until [stop] matches.  Gives the group and the text left
    after [stop]. *)
Fixpoint lazy_until (stop s : string) : option (string * string) :=
  if startswith stop s then Some (EmptyString, drop (String.length stop) s)
  else
    match s with
    | EmptyString => None
    | String c s' =>
        match lazy_until stop s' with
        | Some (group, rest) => Some (String c group, rest)
        | None => None
        end
    end.

(** The whole pattern tried at the start of [s]. *)
Definition match_at (s : string) : option (string * string) :=
  if startswith opener s
  then lazy_until fence (drop (String.length opener) s)
  else None.

Lemma drop_length (n : nat) (s : string) :
  String.length (drop n s) = String.length s - n.
Proof.
  revert s; induction n as [|n IH]; intros [|c s]; simpl; auto.
Qed.

Lemma lazy_until_shorter (stop s group rest : string) :
  lazy_until stop s = Some (group, rest) ->
  String.length group + String.length stop + String.length rest = String.length s.
Proof.
  revert group rest; induction s as [|c s IH]; intros group rest.
  - destruct stop; simpl; [|discriminate].
    intros [= <- <-]; reflexivity.
  - cbn [lazy_until].
    destruct (startswith stop (String c s)) eqn:Hp.
    + intros [= <- <-]. rewrite drop_length. cbn [String.length Nat.add].
      assert (String.length stop <= String.length (String c s)).
      { clear IH. revert Hp. generalize (String c s). clear.
        induction stop as [|a k IHk]; intros [|b t]; simpl; try lia; try discriminate.
        intros H; apply andb_prop in H as [_ H]. apply IHk in H. lia. }
      cbn [String.length] in H |- *. lia.
    + destruct (lazy_until stop s) as [[g r]|] eqn:Hl; [|discriminate].
      intros [= <- <-]. specialize (IH _ _ eq_refl). simpl. lia.
Qed.

Lemma match_at_shorter (s group rest : string) :
  match_at s = Some (group, rest) -> String.length rest < String.length s.
Proof.
  unfold match_at. destruct (startswith opener s); [|discriminate].
  intros H. apply lazy_until_shorter in H. rewrite drop_length in H.
  simpl in H. lia.
Qed.

Definition inspect {A : Type} (a : A) : {b : A | a = b} := exist _ a eq_refl.

(** [re.findall(pattern, s, re.DOTALL)] for the pattern above: from left
    to right, a match at the current position gives its group and moves
    behind the match; no match there moves one character on. *)
Equations? findall (s : string) : list string by wf (String.length s) lt :=
  findall s with inspect (match_at s) := {
    | exist _ (Some (group, rest)) _ => group :: findall rest
    | exist _ None _ with s := {
        | EmptyString => []
        | String _ s' => findall s' } }.
Proof.
  eapply match_at_shorter; eassumption.
Qed.

Definition extract_mermaid_blocks (markdown_text : string) : list string :=
  findall markdown_text.

End MermaidExtractor.

(* ===================================================================== *)
(** * class ChatManager                                                    *)
(* ===================================================================== *)

Module ChatManager.

(** A chat message is a dict of which the program reads two keys.  A field
    is [None] when the dict has no such key. *)
Record message : Type := Message {
  role : option string;
  content : option string
}.

(** [{"role": r, "content": c}] *)
Definition msg (r c : string) : message :=
  {| role := Some r; content := Some c |}.

(** [m[key]] and [m.get(key, default)] on a message field. *)
Definition getitem (field : option string) : result string :=
  match field with
  | Some v => Ok v
  | None => Raise KeyError
  end.

Definition get (field : option string) (default : string) : string :=
  match field with
  | Some v => v
  | None => default
  end.

(** ** should_stop *)

Definition agent_roles : list string := ["TextRAG_Agent"; "GraphRAG_Agent"].

(** The comprehension building [last_few]: the condition reads
    [msg["role"]] first, the element reads [msg["content"]] only for the
    messages kept. *)
Fixpoint last_few_of (msgs : list message) : result (list string) :=
  match msgs with
  | [] => Ok []
  | m :: rest =>
      r <- getitem (role m) ;;
      if mem r agent_roles then
        c <- getitem (content m) ;;
        tl <- last_few_of rest ;;
        Ok (lower (strip c) :: tl)
      else last_few_of rest
  end.

Definition generic_in (resp : string) : bool :=
  existsb (fun generic => contains generic resp) Config.TERMINATION_PHRASES.

Definition should_stop (chat_history : list message) : result bool :=
  last_few <- last_few_of (last_n 3 chat_history) ;;
  Ok (forallb generic_in last_few).

(** ** _get_avatar *)

(** The two emoji literals of the source, and whatever a [Config]
    attribute would hold. *)
Inductive avatar : Type :=
| Brain
| OfficeWorker
| Attribute (v : Config.value).

Definition _get_avatar (r : string) : result avatar :=
  if String.eqb r "user_proxy" then Ok Brain
  else if String.eqb r "user" then Ok OfficeWorker
  else if mem r ["TextRAG_Agent"; "GraphRAG_Agent"] then Ok OfficeWorker
  else v <- Config.getattr "USER_IMAGE" ;; Ok (Attribute v).

(** ** stream_response *)

(** [text.split()]: the maximal runs of non-space characters; [word] is
    the run being read. *)
Fixpoint split_from (word s : string) : list string :=
  match s with
  | EmptyString => if String.eqb word "" then [] else [word]
  | String c s' =>
      if isspace c
      then if String.eqb word "" then split_from "" s'
           else word :: split_from "" s'
      else split_from (word ++ String c "") s'
  end.

Definition split (s : string) : list string := split_from "" s.

(** The chunks the generator yields; the pause between them is not
    modelled. *)
Definition stream_response (text : string) : list string :=
  map (fun word => word ++ " ") (split text).

(** ** generate_response *)

Inductive agent : Type := graph_agent | text_agent.

Definition name (a : agent) : string :=
  match a with
  | graph_agent => "GraphRAG_Agent"
  | text_agent => "TextRAG_Agent"
  end.

(** Lines 141-143: the prompt classifier. *)
Definition is_org_related (prompt : string) : bool :=
  let prompt_lower := lower prompt in
  existsb (fun keyword => contains keyword prompt_lower) Config.ORG_KEYWORDS.

(** Lines 145-160: the prompt of the organization branch. *)
Definition mermaid_blocks_of (docs : DocumentLoader.documents) : list string :=
  flat_map MermaidExtractor.extract_mermaid_blocks
    (values (dict_get_default "org" [] docs)).

Definition refence (block : string) : string :=
  "```mermaid" ++ nl ++ block ++ nl ++ "```".

Definition org_final_prompt (docs : DocumentLoader.documents) (prompt : string)
  : string :=
  let mermaid_diagrams := join (nl ++ nl) (map refence (mermaid_blocks_of docs)) in
  "Based on the following organization charts,"
  ++ "answer the user's question."
  ++ "Only use this information to determine reporting lines,"
  ++ "structure, or team relationships."
  ++ "Do not include any Mermaid diagrams or"
  ++ "raw reference material in your response:" ++ nl ++ nl
  ++ mermaid_diagrams ++ nl ++ nl ++ "User's question: " ++ prompt.

(** Lines 178-188: the prompt of the personal branch. *)
Definition personal_final_prompt (docs : DocumentLoader.documents)
    (prompt : string) : string :=
  let personal_content :=
    join (nl ++ nl)
      (map (fun item => "# " ++ fst item ++ nl ++ snd item)
         (items (dict_get_default "personal" [] docs))) in
  "Use the following personal notes to"
  ++ "answer the user's question."
  ++ "Do not include any raw personal notes"
  ++ "or reference material in your response:" ++ nl ++ nl
  ++ personal_content ++ nl ++ nl ++ "User's question: " ++ prompt.

(** The synthetic message each branch appends when [should_stop] holds. *)
Definition stop_message (a : agent) : message :=
  match a with
  | graph_agent =>
      msg (name graph_agent)
        ("Ending the chat as " ++ "no relevant answer can be provided.")
  | text_agent =>
      msg (name text_agent)
        ("Ending the chat as no helpful" ++ "answer can be provided.")
  end.

(** Lines 204-212: the history filter. *)
Definition leak_markers : list string :=
  ["```mermaid"; "# personal"; "based on the following"; "use the following"].

Definition leaks (m : message) : bool :=
  existsb (fun keyword => contains keyword (lower (get (content m) "")))
    leak_markers.

Definition clean_history (chat_history : list message) : list message :=
  filter (fun m => negb (leaks m)) chat_history.

Section GenerateResponse.

(** [self.user_proxy.initiate_chat(agent, message=..., max_turns=1)]:
    the external conversation, read only through the [chat_history] of
    what it returns. *)
Variable initiate_chat : agent -> string -> list message.

(** Both branches run the same three steps on their own agent. *)
Definition run_branch (a : agent) (final_prompt : string)
  : result (list message) :=
  let chat_history := initiate_chat a final_prompt in
  stop <- should_stop chat_history ;;
  Ok (if stop then (chat_history ++ [stop_message a])%list else chat_history).

Definition generate_response (cwd : DocumentLoader.node) (prompt : string)
  : result (list message) :=
  docs <- DocumentLoader.load_documents cwd ;;
  chat_history <-
    (if is_org_related prompt
     then run_branch graph_agent (org_final_prompt docs prompt)
     else run_branch text_agent (personal_final_prompt docs prompt)) ;;
  Ok (clean_history chat_history).

End GenerateResponse.

(** ** show_chat_history *)

(** One [container.chat_message(name, avatar=...)] with what is written
    into it.  [ev_entry] records the index of the history entry the event
    was rendered for. *)
Inductive written : Type :=
| Write (text : string)
| Markdown (text : string)
| WriteStream (chunks : list string).

Record event : Type := Event {
  ev_entry : nat;
  ev_name : string;
  ev_avatar : avatar;
  ev_written : written
}.

(** An element of [st.session_state.rag_messages]. *)
Record stored : Type := Stored {
  st_role : string;
  st_content : string;
  st_avatar : avatar
}.

Record ui : Type := Ui {
  rag_messages : list stored;
  timeline : list event
}.

Definition assistant_write (i len : nat) (content_ : string) : written :=
  if Nat.eqb i (len - 1) then WriteStream (stream_response content_)
  else Markdown content_.

(** One pass through the loop body, for entry [i] of a history of
    length [len]: the interface afterwards, and whether the pass raised. *)
Definition show_entry (i len : nat) (entry : message) (u : ui)
  : ui * result unit :=
  let r := get (role entry) "assistant" in
  let c := strip (get (content entry) "") in
  if String.eqb c "" then (u, Ok tt)
  else
    match _get_avatar r with
    | Raise e => (u, Raise e)
    | Ok a =>
        let u1 := {| rag_messages := (rag_messages u ++ [Stored r c a])%list;
                     timeline := timeline u |} in
        let emit ev := {| rag_messages := rag_messages u1;
                          timeline := (timeline u1 ++ [ev])%list |} in
        if String.eqb r "user_proxy" then
          (emit (Event i "user" Brain (Write ("*System prompted:* " ++ c))),
           Ok tt)
        else if String.eqb r "user" then
          (emit (Event i "user" OfficeWorker (Write c)), Ok tt)
        else if mem r ["TextRAG_Agent"; "GraphRAG_Agent"] then
          (emit (Event i "assistant" OfficeWorker (assistant_write i len c)),
           Ok tt)
        else
          match Config.getattr "USER_IMAGE" with
          | Raise e => (u1, Raise e)
          | Ok v =>
              (emit (Event i "assistant" (Attribute v)
                       (assistant_write i len c)),
               Ok tt)
          end
    end.

(** The loop, from entry [i] on; an exception ends it. *)
Fixpoint show_from (i len : nat) (entries : list message) (u : ui)
  : ui * result unit :=
  match entries with
  | [] => (u, Ok tt)
  | entry :: rest =>
      match show_entry i len entry u with
      | (u', Ok _) => show_from (S i) len rest u'
      | (u', Raise e) => (u', Raise e)
      end
  end.

Definition show_chat_history (chat_history : list message) (u : ui)
  : ui * result unit :=
  show_from 0 (List.length chat_history) chat_history u.

End ChatManager.

(* ===================================================================== *)
(** * class AgentFactory                                                   *)
(* ===================================================================== *)

Module AgentFactory.

Section IsTerminationMsg.

(** [autogen.code_utils.content_str], the library function that turns a
    message content into text. *)
Variable content_str : string -> string.

(** The [is_termination_msg] handed to the user proxy (lines 92-95). *)
Definition is_termination_msg (x : ChatManager.message) : bool :=
  existsb
    (fun phrase =>
       contains phrase
         (lower (content_str (ChatManager.get (ChatManager.content x) ""))))
    Config.TERMINATION_PHRASES.

End IsTerminationMsg.

End AgentFactory.

(* ===================================================================== *)
(** * Module-level functions of pages/rag_agents.py                        *)
(* ===================================================================== *)

Module RagAgentsPage.

(** [s.split(sep)] for a separator of one character: the pieces between
    the separators, empty ones included; [word] is the piece being read. *)
Fixpoint split_on (sep : ascii) (word s : string) : list string :=
  match s with
  | EmptyString => [word]
  | String c s' =>
      if Ascii.eqb c sep then word :: split_on sep "" s'
      else split_on sep (word ++ String c "") s'
  end.

(** The chunks [stream_data] yields (lines 252-255, and lines 90-93 of
    streamlit_app.py); the pause between them is not modelled. *)
Definition stream_data (stream_str : string) : list string :=
  map (fun word => word ++ " ") (split_on " "%char "" stream_str).

End RagAgentsPage.

(* ===================================================================== *)
(** * streamlit_app.py                                                     *)
(* ===================================================================== *)

Module StreamlitApp.

Definition user_image : string :=
  "https://www.w3schools.com/howto/img_avatar.png".

(** [s.find(k)]: the index of the leftmost occurrence of [k] in [s], or
    -1; [i] is the index of the position being tried. *)
Fixpoint find_from (k s : string) (i : Z) : Z :=
  if startswith k s then i
  else
    match s with
    | EmptyString => (-1)%Z
    | String _ s' => find_from k s' (i + 1)%Z
    end.

Definition find (k s : string) : Z := find_from k s 0%Z.

Section IsTerminationMsg.

(** [autogen.code_utils.content_str], here applied to [x.get("content")],
    which is [None] for a message without that key. *)
Variable content_str : option string -> string.

(** The [is_termination_msg] of the user proxy (line 85). *)
Definition is_termination_msg (x : ChatManager.message) : bool :=
  (0 <=? find "ALL DONE" (content_str (ChatManager.content x)))%Z.

End IsTerminationMsg.

(** An element of [st.session_state.messages]: the keys the program
    writes and reads.  [m_image] is [None] when the dict has no ["image"]
    key; no code of the program sets one. *)
Record session_message : Type := SessionMessage {
  m_role : string;
  m_content : option string;
  m_image : option string
}.

(** One [st_c_chat.chat_message(name, avatar=...)] with the text written
    into it; [e_avatar] is [None] when no avatar is passed. *)
Record event : Type := Event {
  e_name : string;
  e_avatar : option string;
  e_text : option string
}.

Record ui : Type := Ui {
  messages : list session_message;
  timeline : list event
}.

(** [f"{role}"]: a missing role prints as [None]. *)
Definition format_role (r : option string) : string :=
  match r with
  | Some s => s
  | None => "None"
  end.

(** [role != 'assistant'] *)
Definition not_assistant (r : option string) : bool :=
  match r with
  | Some s => negb (String.eqb s "assistant")
  | None => true
  end.

(** How a pass through a loop body ends. *)
Inductive flow : Type := Continue | Return.

Definition store (entry : ChatManager.message) : session_message :=
  SessionMessage (format_role (ChatManager.role entry))
    (ChatManager.content entry) None.

Definition emit (ev : event) (u : ui) : ui :=
  {| messages := messages u; timeline := (timeline u ++ [ev])%list |}.

(** One pass through the loop body of [show_chat_history] (lines
    171-184). *)
Definition show_entry (entry : ChatManager.message) (u : ui)
  : ui * result flow :=
  let r := ChatManager.role entry in
  let u1 := {| messages := (messages u ++ [store entry])%list;
               timeline := timeline u |} in
  match ChatManager.content entry with
  | None => (u1, Raise AttributeError)
  | Some c =>
      if negb (Nat.eqb (String.length (strip c)) 0) then
        if contains "ALL DONE" c then (u1, Ok Return)
        else if not_assistant r
        then (emit (Event (format_role r) None (Some c)) u1, Ok Continue)
        else (emit (Event "user" (Some user_image) (Some c)) u1, Ok Continue)
      else (u1, Ok Continue)
  end.

Fixpoint show_chat_history (chat_hsitory : list ChatManager.message) (u : ui)
  : ui * result unit :=
  match chat_hsitory with
  | [] => (u, Ok tt)
  | entry :: rest =>
      match show_entry entry u with
      | (u', Ok Continue) => show_chat_history rest u'
      | (u', Ok Return) => (u', Ok tt)
      | (u', Raise e) => (u', Raise e)
      end
  end.

Section Chat.

(** [user_proxy.initiate_chat(recipient=assistant, message=...)], read
    through the [chat_history] of its result. *)
Variable initiate_chat : string -> list ChatManager.message.

Definition generate_response (prompt : string) : list ChatManager.message :=
  let prompt_template := "I would like to know'" ++ prompt ++ "'" in
  initiate_chat prompt_template.

Definition chat (prompt : string) (u : ui) : ui * result unit :=
  let u1 := emit (Event "user" (Some user_image) (Some prompt)) u in
  let u2 := {| messages :=
                 (messages u1 ++ [SessionMessage "user" (Some prompt) None])%list;
               timeline := timeline u1 |} in
  show_chat_history (generate_response prompt) u2.

End Chat.

(** A string is true when it is not empty. *)
Definition truthy (s : string) : bool := negb (String.eqb s "").

(** The replay of one stored message in [main] (lines 126-139): the
    events it renders.  Nothing in the [try] block raises on a dict, so
    the [except] branch is never taken. *)
Definition replay_entry (m : session_message) : list event :=
  if String.eqb (m_role m) "user" then
    if truthy user_image
    then [Event (m_role m) (Some user_image) (m_content m)]
    else [Event (m_role m) None (m_content m)]
  else if String.eqb (m_role m) "assistant" then
    [Event (m_role m) None (m_content m)]
  else
    match m_image m with
    | Some image_tmp =>
        if truthy image_tmp
        then [Event (m_role m) (Some image_tmp) (m_content m)]
        else []
    | None => []
    end.

(** [for msg in st.session_state.messages] (line 125). *)
Definition replay (ms : list session_message) : list event :=
  flat_map replay_entry ms.

End StreamlitApp.

(* ===================================================================== *)
(** * Vocabulary of the statements                                         *)
(* ===================================================================== *)

(** [k] occurs in [s]. *)
Definition Substring (k s : string) : Prop :=
  exists a b : string, s = a ++ k ++ b.

(** [s] splits as [a ++ k ++ b] at the leftmost occurrence of [k]. *)
Definition FirstAt (k a b s : string) : Prop :=
  s = a ++ k ++ b
  /\ forall a' b' : string,
       s = a' ++ k ++ b' -> String.length a <= String.length a'.

(** [s] ends with [k]. *)
Definition Suffix (k s : string) : Prop :=
  exists a : string, s = a ++ k.

(** [l'] is [l] with exactly the elements satisfying [P] dropped, the
    others kept in place. *)
Inductive Dropped {A : Type} (P : A -> Prop) : list A -> list A -> Prop :=
| Dropped_nil : Dropped P [] []
| Dropped_drop x l l' : P x -> Dropped P l l' -> Dropped P (x :: l) l'
| Dropped_keep x l l' : ~ P x -> Dropped P l l' -> Dropped P (x :: l) (x :: l').

(** The diagram blocks of a text, read off from left to right: the body
    of a block starts behind the leftmost opening marker and stops before
    the first fence that follows it; reading goes on behind that fence.
    An opening marker with no fence after it gives no block. *)
Inductive Blocks : string -> list string -> Prop :=
| Blocks_no_opener s :
    ~ Substring MermaidExtractor.opener s -> Blocks s []
| Blocks_unterminated s pre r :
    FirstAt MermaidExtractor.opener pre r s ->
    ~ Substring MermaidExtractor.fence r ->
    Blocks s []
| Blocks_cons s pre r body rest bs :
    FirstAt MermaidExtractor.opener pre r s ->
    FirstAt MermaidExtractor.fence body rest r ->
    Blocks rest bs ->
    Blocks s (body :: bs).

(** A document holding one diagram and nothing else:
    the fence opener, the line [graph TD], the closing fence. *)
Definition fenced_graph_td : string :=
  "```mermaid" ++ nl ++ "graph TD" ++ nl ++ "```".

(** Messages that carry both keys: what [should_stop] reads without
    raising. *)
Definition keyed (m : ChatManager.message) : Prop :=
  ChatManager.role m <> None /\ ChatManager.content m <> None.

Definition from_agent (m : ChatManager.message) : bool :=
  mem (ChatManager.get (ChatManager.role m) "") ChatManager.agent_roles.

(** The agent and the prompt of the branch [generate_response] takes. *)
Definition branch_agent (prompt : string) : ChatManager.agent :=
  if ChatManager.is_org_related prompt
  then ChatManager.graph_agent else ChatManager.text_agent.

Definition branch_prompt (docs : DocumentLoader.documents) (prompt : string)
  : string :=
  if ChatManager.is_org_related prompt
  then ChatManager.org_final_prompt docs prompt
  else ChatManager.personal_final_prompt docs prompt.

(** A working directory with [uploaded_docs/org/chart.md] holding one
    diagram, and the documents loaded from it. *)
Definition chart_md : string :=
  "```mermaid" ++ nl ++ "graph TD; A-->B" ++ nl ++ "```".

Definition chart_cwd : DocumentLoader.node :=
  DocumentLoader.Dir
    [("uploaded_docs",
      DocumentLoader.Dir
        [("org",
          DocumentLoader.Dir
            [("chart.md", DocumentLoader.File (Some chart_md))])])].

Definition chart_docs : DocumentLoader.documents :=
  [("personal", []); ("org", [("chart.md", chart_md)])].

Definition manager_question : string :=
  "Who does the engineering manager report to?".






(** What a consumer of a stream of chunks ends up with: the chunks one
    after the other. *)
Definition flatten (chunks : list string) : string :=
  fold_right append "" chunks.

(** The characters of a string that are not white space, in order. *)
Definition visible (s : string) : list ascii :=
  filter (fun c => negb (isspace c)) (list_ascii_of_string s).

(** The number of space characters (U+0020) of a string. *)
Definition spaces (s : string) : nat :=
  List.length (filter (Ascii.eqb " "%char) (list_ascii_of_string s)).

(** What [should_stop] can read of a message without raising: the role,
    and the content when the role is an agent's. *)
Definition readable (m : ChatManager.message) : bool :=
  match ChatManager.role m, ChatManager.content m with
  | None, _ => false
  | Some r, None => negb (mem r ChatManager.agent_roles)
  | Some _, Some _ => true
  end.

(** A working directory with one personal note, and a history in which
    the proxy's prompt is echoed before the agent's reply. *)
Definition note_cwd : DocumentLoader.node :=
  DocumentLoader.Dir
    [("uploaded_docs",
      DocumentLoader.Dir
        [("personal",
          DocumentLoader.Dir
            [("monday.md", DocumentLoader.File (Some "Met Ann."))])])].

Definition note_docs : DocumentLoader.documents :=
  [("personal", [("monday.md", "Met Ann.")]); ("org", [])].

Definition echoing_chat (a : ChatManager.agent) (final_prompt : string)
  : list ChatManager.message :=
  [ChatManager.msg "assistant" final_prompt;
   ChatManager.msg "user" "Ann leads the team."].

(** An entry [ChatManager.show_chat_history] can pass: one it skips as
    empty, or one whose role has an avatar. *)
Definition passes (m : ChatManager.message) : bool :=
  String.eqb (strip (ChatManager.get (ChatManager.content m) "")) ""
  || mem (ChatManager.get (ChatManager.role m) "assistant")
       ["user_proxy"; "user"; "TextRAG_Agent"; "GraphRAG_Agent"].

(** How an event of [ChatManager.show_chat_history] is written, for a
    history of length [len]: streamed for the last entry, as markdown for
    an earlier one, both under the name [assistant]; a plain write goes
    under the name [user]. *)
Definition written_as (len : nat) (e : ChatManager.event) : Prop :=
  match ChatManager.ev_written e with
  | ChatManager.WriteStream _ =>
      ChatManager.ev_entry e = len - 1 /\ ChatManager.ev_name e = "assistant"
  | ChatManager.Markdown _ =>
      ChatManager.ev_entry e <> len - 1 /\ ChatManager.ev_name e = "assistant"
  | ChatManager.Write _ => ChatManager.ev_name e = "user"
  end.

(** A message of the start page's history that ends its display. *)
Definition all_done (m : ChatManager.message) : Prop :=
  exists c : string, ChatManager.content m = Some c /\ Substring "ALL DONE" c.

(* ===================================================================== *)
(** * Strings                                                              *)
(* ===================================================================== *)

Section StringFacts.

Lemma append_assoc (a b c : string) : (a ++ b) ++ c = a ++ (b ++ c).
Proof. induction a as [|x a IH]; simpl; [reflexivity | now rewrite IH]. Qed.

Lemma append_nil_r (a : string) : a ++ "" = a.
Proof. induction a as [|x a IH]; simpl; [reflexivity | now rewrite IH]. Qed.

Lemma append_length (a b : string) :
  String.length (a ++ b) = String.length a + String.length b.
Proof. induction a as [|x a IH]; simpl; [reflexivity | now rewrite IH]. Qed.

Lemma append_inv_head (a b c : string) : a ++ b = a ++ c -> b = c.
Proof.
  induction a as [|x a IH]; simpl; intros H; [assumption|].
  injection H as H. auto.
Qed.

(** Two splittings of one string: the shorter head is a prefix of the
    longer one. *)
Lemma append_split (a x b y : string) :
  a ++ x = b ++ y ->
  String.length a <= String.length b ->
  exists m : string, b = a ++ m /\ x = m ++ y.
Proof.
  revert b; induction a as [|c a IH]; intros b H Hlen.
  - exists b. split; [reflexivity | exact H].
  - destruct b as [|d b]; simpl in Hlen; [lia|].
    simpl in H. injection H as -> H.
    destruct (IH b H) as (m & -> & ->); [lia|].
    exists m. split; reflexivity.
Qed.

Lemma startswith_spec (k s : string) :
  startswith k s = true <-> exists b : string, s = k ++ b.
Proof.
  revert s; induction k as [|a k IH]; intros s; simpl.
  - split; [intros _; exists s; reflexivity | reflexivity].
  - destruct s as [|b s].
    + split; [discriminate | intros [t Ht]; discriminate].
    + rewrite andb_true_iff, Ascii.eqb_eq, IH. split.
      * intros [-> [t ->]]. exists t. reflexivity.
      * intros [t Ht]. injection Ht as -> ->. split; [reflexivity | now exists t].
Qed.

Lemma startswith_append (k b : string) : startswith k (k ++ b) = true.
Proof. apply startswith_spec. now exists b. Qed.

Lemma Substring_tail (k s : string) (c : ascii) :
  Substring k s -> Substring k (String c s).
Proof. intros (a & b & ->). now exists (String c a), b. Qed.

(** [k in s] decides [Substring]. *)
Lemma contains_spec (k s : string) : contains k s = true <-> Substring k s.
Proof.
  induction s as [|c s IH].
  - simpl. rewrite orb_false_r, startswith_spec. split.
    + intros [b Hb]. now exists "", b.
    + intros (a & b & H). destruct a; [now exists b | discriminate].
  - cbn [contains]. rewrite orb_true_iff, IH, startswith_spec. split.
    + intros [[b Hb] | H]; [now exists "", b | now apply Substring_tail].
    + intros (a & b & H). destruct a as [|d a].
      * left. now exists b.
      * right. simpl in H. injection H as _ ->. now exists a, b.
Qed.

Lemma contains_false (k s : string) : contains k s = false <-> ~ Substring k s.
Proof.
  rewrite <- contains_spec. destruct (contains k s); split; congruence.
Qed.

(** [s.endswith(k)] decides [Suffix]. *)
Lemma endswith_spec (k s : string) : endswith k s = true <-> Suffix k s.
Proof.
  induction s as [|c s IH]; cbn [endswith].
  - rewrite orb_false_r, String.eqb_eq. split.
    + intros ->. now exists "".
    + intros [a H]. destruct a; [exact (eq_sym H) | discriminate].
  - rewrite orb_true_iff, String.eqb_eq, IH. split.
    + intros [-> | [a ->]]; [now exists "" | now exists (String c a)].
    + intros [[|d a] H].
      * left. exact (eq_sym H).
      * right. simpl in H. injection H as _ ->. now exists a.
Qed.

Lemma Substring_refl (s : string) : Substring s s.
Proof. exists "", "". simpl. now rewrite append_nil_r. Qed.

Lemma Substring_trans (a b c : string) :
  Substring a b -> Substring b c -> Substring a c.
Proof.
  intros (x & y & ->) (u & v & ->).
  exists (u ++ x), (y ++ v). now rewrite !append_assoc.
Qed.

Lemma Substring_append_l (k a s : string) :
  Substring k s -> Substring k (a ++ s).
Proof.
  intros (x & y & ->). exists (a ++ x), y. now rewrite append_assoc.
Qed.

Lemma Substring_append_r (k s b : string) :
  Substring k s -> Substring k (s ++ b).
Proof.
  intros (x & y & ->). exists x, (y ++ b). now rewrite !append_assoc.
Qed.

Lemma lower_append (a b : string) : lower (a ++ b) = lower a ++ lower b.
Proof. induction a as [|c a IH]; simpl; [reflexivity | now rewrite IH]. Qed.

Lemma Substring_lower (k s : string) :
  Substring k s -> Substring (lower k) (lower s).
Proof.
  intros (a & b & ->). exists (lower a), (lower b).
  now rewrite !lower_append.
Qed.

Lemma existsb_contains (ks : list string) (s : string) :
  existsb (fun k => contains k s) ks = true
  <-> exists k : string, In k ks /\ Substring k s.
Proof.
  rewrite existsb_exists. split; intros (k & Hin & H); exists k;
    (split; [assumption | now apply contains_spec]).
Qed.

End StringFacts.

(* ===================================================================== *)
(** * The prompt classifier                                                *)
(* ===================================================================== *)

Section Classifier.
Import ChatManager.

Example classify_manager_question :
  is_org_related "Who does the engineering manager report to?" = true.
Proof. reflexivity. Qed.

Example classify_meeting_note :
  is_org_related "What did I note about today's meeting?" = false.
Proof. reflexivity. Qed.

Example classify_ignores_case : is_org_related "TEAM outing" = true.
Proof. reflexivity. Qed.

(** C1.  A prompt is organization-related exactly when one of the nine
    organization keywords occurs in the lower-cased prompt, and
    personal-related (the classifier is false) exactly when none does; the
    empty prompt is personal-related. *)
Theorem is_org_related_spec (prompt : string) :
  (is_org_related prompt = true
   <-> exists keyword : string,
         In keyword ["org"; "organization"; "structure"; "team"; "manager";
                     "lead"; "report"; "department"; "chart"]
         /\ Substring keyword (lower prompt))
  /\ (is_org_related prompt = false
      <-> forall keyword : string,
            In keyword ["org"; "organization"; "structure"; "team"; "manager";
                        "lead"; "report"; "department"; "chart"]
            -> ~ Substring keyword (lower prompt))
  /\ is_org_related "" = false.
Proof.
  assert (Hiff : is_org_related prompt = true
                 <-> exists keyword : string,
                       In keyword Config.ORG_KEYWORDS
                       /\ Substring keyword (lower prompt))
    by apply existsb_contains.
  change Config.ORG_KEYWORDS
    with ["org"; "organization"; "structure"; "team"; "manager";
          "lead"; "report"; "department"; "chart"] in Hiff.
  split; [exact Hiff | split; [| reflexivity]].
  split.
  - intros Hf k Hin Hsub.
    assert (is_org_related prompt = true) by (apply Hiff; eauto).
    congruence.
  - intros Hnone. destruct (is_org_related prompt) eqn:E; [|reflexivity].
    destruct (proj1 Hiff eq_refl) as (k & Hin & Hsub).
    exfalso. exact (Hnone k Hin Hsub).
Qed.

End Classifier.

(* ===================================================================== *)
(** * The diagram extractor                                                *)
(* ===================================================================== *)

Section Extractor.
Import MermaidExtractor.

Lemma findall_empty : findall "" = [].
Proof. reflexivity. Qed.

Lemma findall_match (s group rest : string) :
  match_at s = Some (group, rest) -> findall s = group :: findall rest.
Proof.
  intros H. rewrite findall_equation_1.
  destruct (inspect (match_at s)) as [[[g r]|] e]; simpl.
  - rewrite H in e. now injection e as <- <-.
  - congruence.
Qed.

Lemma findall_skip (c : ascii) (s : string) :
  match_at (String c s) = None -> findall (String c s) = findall s.
Proof.
  intros H. rewrite findall_equation_1.
  destruct (inspect (match_at (String c s))) as [[[g r]|] e]; simpl.
  - congruence.
  - reflexivity.
Qed.

Lemma drop_append (k b : string) : drop (String.length k) (k ++ b) = b.
Proof. induction k as [|c k IH]; simpl; [now destruct b | exact IH]. Qed.

(** ** Leftmost occurrences *)

Lemma FirstAt_here (k b : string) : FirstAt k "" b (k ++ b).
Proof. split; [reflexivity | intros; simpl; lia]. Qed.

Lemma FirstAt_later (k a b s : string) (c : ascii) :
  FirstAt k a b s ->
  startswith k (String c s) = false ->
  FirstAt k (String c a) b (String c s).
Proof.
  intros [-> Hmin] Hstart. split; [reflexivity|].
  intros [|d a'] b' H.
  - simpl in H. rewrite H, startswith_append in Hstart. discriminate.
  - simpl in H. injection H as _ H. apply Hmin in H. simpl. lia.
Qed.

Lemma FirstAt_unique (k a b a' b' s : string) :
  FirstAt k a b s -> FirstAt k a' b' s -> a = a' /\ b = b'.
Proof.
  intros [H1 M1] [H2 M2].
  pose proof (M1 _ _ H2) as L1. pose proof (M2 _ _ H1) as L2.
  rewrite H1 in H2.
  destruct (append_split _ _ _ _ H2 L1) as (m & -> & Hm).
  rewrite append_length in L2.
  destruct m; [|simpl in L2; lia].
  rewrite append_nil_r. split; [reflexivity|].
  simpl in Hm. now apply append_inv_head in Hm.
Qed.

Lemma FirstAt_Substring (k a b s : string) : FirstAt k a b s -> Substring k s.
Proof. intros [H _]. now exists a, b. Qed.

Lemma lazy_until_some (k s a b : string) :
  lazy_until k s = Some (a, b) -> FirstAt k a b s.
Proof.
  revert a b; induction s as [|c s IH]; intros a b.
  - destruct k as [|x k]; simpl; [|discriminate].
    intros [= <- <-]. apply (FirstAt_here "" "").
  - cbn [lazy_until]. destruct (startswith k (String c s)) eqn:E.
    + intros [= <- <-]. apply startswith_spec in E as [t E].
      rewrite E, drop_append. apply FirstAt_here.
    + destruct (lazy_until k s) as [[g r]|]; [|discriminate].
      intros [= <- <-]. apply FirstAt_later; auto.
Qed.

Lemma lazy_until_none (k s : string) :
  lazy_until k s = None -> ~ Substring k s.
Proof.
  intros H. apply contains_false.
  induction s as [|c s IH].
  - simpl in *. destruct (startswith k ""); [discriminate | reflexivity].
  - cbn [lazy_until contains] in *.
    destruct (startswith k (String c s)); [discriminate|].
    destruct (lazy_until k s) as [[g r]|]; [discriminate|].
    simpl. now apply IH.
Qed.

Lemma lazy_until_first (k s a b : string) :
  FirstAt k a b s -> lazy_until k s = Some (a, b).
Proof.
  intros H. destruct (lazy_until k s) as [[a' b']|] eqn:E.
  - apply lazy_until_some in E.
    destruct (FirstAt_unique _ _ _ _ _ _ E H) as [-> ->]. reflexivity.
  - apply lazy_until_none in E. exfalso. apply E.
    eapply FirstAt_Substring; eauto.
Qed.

(** ** The pattern at one position *)

Lemma match_at_opener (r : string) :
  match_at (opener ++ r) = lazy_until fence r.
Proof.
  unfold match_at. now rewrite startswith_append, drop_append.
Qed.

Lemma match_at_no_opener (s : string) :
  startswith opener s = false -> match_at s = None.
Proof. unfold match_at. now intros ->. Qed.

Lemma startswith_cases (s : string) :
  (exists r : string, s = opener ++ r) \/ startswith opener s = false.
Proof.
  destruct (startswith opener s) eqn:E; [left | now right].
  now apply startswith_spec.
Qed.

Lemma Substring_not_at_head (k s : string) (c : ascii) :
  startswith k (String c s) = false ->
  Substring k (String c s) -> Substring k s.
Proof.
  intros Hstart ([|d a] & b & H).
  - simpl in H. rewrite H, startswith_append in Hstart. discriminate.
  - simpl in H. injection H as _ ->. now exists a, b.
Qed.

(** ** What [findall] returns, read backwards from its result *)

Lemma findall_cons_inv (s g : string) (l : list string) :
  findall s = g :: l ->
  exists pre r rest : string,
    FirstAt opener pre r s /\ FirstAt fence g rest r /\ l = findall rest.
Proof.
  induction s as [|c s IH].
  - discriminate.
  - destruct (match_at (String c s)) as [[g' rest']|] eqn:E.
    + rewrite (findall_match _ _ _ E). intros [= -> <-].
      destruct (startswith_cases (String c s)) as [[r Hr] | Hno].
      * rewrite Hr in E |- *. rewrite match_at_opener in E.
        exists "", r, rest'. split; [apply FirstAt_here|].
        split; [now apply lazy_until_some | reflexivity].
      * rewrite (match_at_no_opener _ Hno) in E. discriminate.
    + rewrite (findall_skip _ _ E). intros H.
      destruct (IH H) as (pre & r & rest & Ho & Hf & ->).
      exists (String c pre), r, rest. split; [|now split].
      destruct (startswith_cases (String c s)) as [[b0 Hb] | Hno].
      * exfalso. rewrite Hb, match_at_opener in E.
        apply lazy_until_none in E. apply E.
        destruct Ho as [Hs _]. rewrite Hs in Hb.
        change (String c (pre ++ opener ++ r))
          with ((String c pre) ++ opener ++ r) in Hb.
        rewrite <- append_assoc in Hb. symmetry in Hb.
        destruct (append_split _ _ _ _ Hb) as (m & _ & ->).
        { rewrite append_length. lia. }
        apply Substring_append_l. eapply FirstAt_Substring; eauto.
      * now apply FirstAt_later.
Qed.

Lemma findall_nil_inv (s : string) :
  findall s = [] ->
  ~ Substring opener s
  \/ exists pre r : string, FirstAt opener pre r s /\ ~ Substring fence r.
Proof.
  induction s as [|c s IH].
  - intros _. left. apply contains_false. reflexivity.
  - destruct (match_at (String c s)) as [[g' rest']|] eqn:E.
    + rewrite (findall_match _ _ _ E). discriminate.
    + rewrite (findall_skip _ _ E). intros H.
      destruct (startswith_cases (String c s)) as [[b0 Hb] | Hno].
      * right. rewrite Hb in E |- *. rewrite match_at_opener in E.
        exists "", b0. split; [apply FirstAt_here | now apply lazy_until_none].
      * destruct (IH H) as [Hnone | (pre & r & Ho & Hf)].
        -- left. intros Hsub. apply Hnone.
           eapply Substring_not_at_head; eauto.
        -- right. exists (String c pre), r. split; [|assumption].
           now apply FirstAt_later.
Qed.

(** ** [findall] against [Blocks] *)

Lemma FirstAt_rest_shorter (pre r body rest s : string) :
  FirstAt opener pre r s -> FirstAt fence body rest r ->
  String.length rest < String.length s.
Proof.
  intros [-> _] [-> _]. rewrite !append_length. simpl. lia.
Qed.

Lemma findall_Blocks (s : string) : Blocks s (findall s).
Proof.
  remember (String.length s) as n eqn:Hn.
  revert s Hn. induction n as [n IH] using lt_wf_ind. intros s ->.
  destruct (findall s) as [|g l] eqn:E.
  - destruct (findall_nil_inv _ E) as [Hnone | (pre & r & Ho & Hf)].
    + now apply Blocks_no_opener.
    + eapply Blocks_unterminated; eauto.
  - destruct (findall_cons_inv _ _ _ E) as (pre & r & rest & Ho & Hf & ->).
    eapply Blocks_cons; eauto.
    eapply IH; [|reflexivity]. eapply FirstAt_rest_shorter; eauto.
Qed.

Lemma Blocks_findall (s : string) (bs : list string) :
  Blocks s bs -> bs = findall s.
Proof.
  induction 1 as [s Hnone | s pre r Ho Hf | s pre r body rest bs Ho Hf _ IH].
  - destruct (findall s) as [|g l] eqn:E; [reflexivity|].
    destruct (findall_cons_inv _ _ _ E) as (pre & r & rest & Ho & _).
    exfalso. apply Hnone. eapply FirstAt_Substring; eauto.
  - destruct (findall s) as [|g l] eqn:E; [reflexivity|].
    destruct (findall_cons_inv _ _ _ E) as (pre' & r' & rest & Ho' & Hf' & _).
    destruct (FirstAt_unique _ _ _ _ _ _ Ho Ho') as [_ <-].
    exfalso. apply Hf. eapply FirstAt_Substring; eauto.
  - destruct (findall s) as [|g l] eqn:E.
    + exfalso.
      destruct (findall_nil_inv _ E) as [Hnone | (pre' & r' & Ho' & Hf')].
      * apply Hnone. eapply FirstAt_Substring; eauto.
      * destruct (FirstAt_unique _ _ _ _ _ _ Ho Ho') as [_ <-].
        apply Hf'. eapply FirstAt_Substring; eauto.
    + destruct (findall_cons_inv _ _ _ E) as (pre' & r' & rest' & Ho' & Hf' & ->).
      destruct (FirstAt_unique _ _ _ _ _ _ Ho Ho') as [_ <-].
      destruct (FirstAt_unique _ _ _ _ _ _ Hf Hf') as [<- <-].
      now rewrite IH.
Qed.

(** A block never holds a fence: its body stops at the first one. *)
Lemma body_has_no_fence (k body rest r : string) :
  k <> "" -> FirstAt k body rest r -> ~ Substring k body.
Proof.
  intros Hk [-> Hmin] (x & y & ->).
  specialize (Hmin x (y ++ k ++ rest)).
  rewrite !append_assoc in Hmin. specialize (Hmin eq_refl).
  rewrite !append_length in Hmin.
  destruct k; [congruence | simpl in Hmin; lia].
Qed.

Lemma extracted_block_has_no_fence (text b : string) :
  In b (findall text) -> ~ Substring fence b.
Proof.
  remember (String.length text) as n eqn:Hn.
  revert text Hn. induction n as [n IH] using lt_wf_ind. intros text ->.
  destruct (findall text) as [|g l] eqn:E; [intros []|].
  destruct (findall_cons_inv _ _ _ E) as (pre & r & rest & Ho & Hf & ->).
  intros [<- | Hin].
  - eapply body_has_no_fence; [|eassumption]. discriminate.
  - eapply IH; [| reflexivity | eassumption].
    eapply FirstAt_rest_shorter; eauto.
Qed.

Lemma findall_no_opener (s : string) : ~ Substring opener s -> findall s = [].
Proof.
  intros H. symmetry. apply Blocks_findall. now apply Blocks_no_opener.
Qed.

(** Extracting again from any extracted block gives nothing, whatever the
    text it came from. *)
Lemma reextract_is_empty (text b : string) :
  In b (extract_mermaid_blocks text) -> extract_mermaid_blocks b = [].
Proof.
  intros Hin. apply findall_no_opener. intros Hsub.
  apply (extracted_block_has_no_fence _ _ Hin).
  refine (Substring_trans _ _ _ _ Hsub).
  apply contains_spec. reflexivity.
Qed.

Example extract_two_blocks :
  extract_mermaid_blocks
    ("intro" ++ nl ++ "```mermaid" ++ nl ++ "graph TD; A-->B" ++ nl ++ "```"
     ++ nl ++ "text" ++ nl ++ "```mermaid" ++ nl ++ "graph LR" ++ nl ++ "```")
  = ["graph TD; A-->B" ++ nl; "graph LR" ++ nl].
Proof. reflexivity. Qed.

Example extract_unterminated :
  extract_mermaid_blocks ("```mermaid" ++ nl ++ "graph TD; A-->B") = [].
Proof. reflexivity. Qed.

(** The block of [fenced_graph_td] keeps the line break before the closing
    fence, so it is not the trimmed body: [extract_mermaid_blocks] does
    not return trimmed bodies. *)
Lemma extract_keeps_line_break :
  extract_mermaid_blocks fenced_graph_td = ["graph TD" ++ nl]
  /\ Blocks fenced_graph_td ["graph TD" ++ nl]
  /\ extract_mermaid_blocks fenced_graph_td <> map strip ["graph TD" ++ nl].
Proof.
  assert (E : extract_mermaid_blocks fenced_graph_td = ["graph TD" ++ nl])
    by reflexivity.
  split; [exact E | split].
  - rewrite <- E. apply findall_Blocks.
  - rewrite E. discriminate.
Qed.

(** C5, as the code has it.  [extract_mermaid_blocks] returns the blocks
    of the text and nothing else: for each opening marker met from left to
    right, the raw body up to the first fence behind it (line breaks
    included, nothing trimmed), in the order met; reading goes on behind
    that fence, and an opening marker with no fence after it gives no
    block. *)
Theorem extract_mermaid_blocks_spec (markdown_text : string) :
  Blocks markdown_text (extract_mermaid_blocks markdown_text)
  /\ forall bs : list string,
       Blocks markdown_text bs -> bs = extract_mermaid_blocks markdown_text.
Proof.
  split; [apply findall_Blocks | apply Blocks_findall].
Qed.

(** C6.  A block returned by [extract_mermaid_blocks] that holds no
    further opening marker yields no block when extracted again. *)
Theorem extract_mermaid_blocks_idempotent (markdown_text b : string) :
  In b (extract_mermaid_blocks markdown_text) ->
  ~ Substring opener b ->
  extract_mermaid_blocks b = [].
Proof.
  intros _ Hnone. now apply findall_no_opener.
Qed.

Lemma extract_mermaid_blocks_idempotent_witness :
  In ("graph TD" ++ nl) (extract_mermaid_blocks fenced_graph_td)
  /\ extract_mermaid_blocks ("graph TD" ++ nl) = [].
Proof.
  assert (Hin : In ("graph TD" ++ nl) (extract_mermaid_blocks fenced_graph_td))
    by (left; reflexivity).
  split; [exact Hin|].
  apply (extract_mermaid_blocks_idempotent fenced_graph_td ("graph TD" ++ nl) Hin).
  apply contains_false. reflexivity.
Defined.

End Extractor.

(* ===================================================================== *)
(** * The history sanitizer                                                *)
(* ===================================================================== *)

Section Sanitizer.
Import ChatManager.

Lemma leaks_spec (m : message) :
  leaks m = true
  <-> exists marker : string,
        In marker ["```mermaid"; "# personal"; "based on the following";
                   "use the following"]
        /\ Substring marker (lower (get (content m) "")).
Proof. apply existsb_contains. Qed.

Lemma filter_Dropped {A : Type} (f : A -> bool) (P : A -> Prop) (l : list A) :
  (forall x : A, f x = true <-> P x) ->
  Dropped P l (filter (fun x => negb (f x)) l).
Proof.
  intros Hf. induction l as [|x l IH]; simpl.
  - constructor.
  - destruct (f x) eqn:E; simpl.
    + apply Dropped_drop; [now apply Hf | exact IH].
    + apply Dropped_keep; [|exact IH].
      intros HP. apply Hf in HP. congruence.
Qed.

Lemma clean_history_app (h1 h2 : list message) :
  clean_history (h1 ++ h2)%list = (clean_history h1 ++ clean_history h2)%list.
Proof. apply filter_app. Qed.

Example clean_history_keeps_order :
  clean_history
    [msg "user_proxy" "Use the following personal notes";
     msg "TextRAG_Agent" "first";
     msg "TextRAG_Agent" fenced_graph_td;
     msg "TextRAG_Agent" "second"]
  = [msg "TextRAG_Agent" "first"; msg "TextRAG_Agent" "second"].
Proof. reflexivity. Qed.

(** C3.  The sanitizer returns the history with exactly those messages
    dropped whose lower-cased content holds one of the four leak markers,
    the others kept in their order; a message whose content is the fenced
    diagram [fenced_graph_td] is never in the result. *)
Theorem clean_history_spec (chat_history : list message) :
  Dropped
    (fun m : message =>
       exists marker : string,
         In marker ["```mermaid"; "# personal"; "based on the following";
                    "use the following"]
         /\ Substring marker (lower (get (content m) "")))
    chat_history (clean_history chat_history)
  /\ forall m : message,
       content m = Some fenced_graph_td ->
       ~ In m (clean_history chat_history).
Proof.
  split.
  - apply filter_Dropped. exact leaks_spec.
  - intros m Hc Hin. apply filter_In in Hin as [_ Hkeep].
    unfold leaks in Hkeep. rewrite Hc in Hkeep. discriminate.
Qed.

End Sanitizer.

(* ===================================================================== *)
(** * The stall detector                                                   *)
(* ===================================================================== *)

Section StallDetector.
Import ChatManager.

Lemma mem_spec (x : string) (xs : list string) : mem x xs = true <-> In x xs.
Proof.
  unfold mem. rewrite existsb_exists. split.
  - intros (y & Hin & E). apply String.eqb_eq in E. now subst.
  - intros Hin. exists x. split; [assumption | apply String.eqb_refl].
Qed.

Lemma mem_false (x : string) (xs : list string) : mem x xs = false <-> ~ In x xs.
Proof.
  rewrite <- mem_spec. destruct (mem x xs); split; congruence.
Qed.

Lemma last_few_of_keyed (msgs : list message) :
  Forall keyed msgs ->
  last_few_of msgs
  = Ok (map (fun m => lower (strip (get (content m) "")))
          (filter from_agent msgs)).
Proof.
  induction 1 as [|m l [Hr Hc] _ IH]; [reflexivity|].
  destruct m as [[r|] [c|]]; cbn in Hr, Hc; try congruence.
  cbn [last_few_of role content getitem bind filter]. rewrite IH.
  change (from_agent {| role := Some r; content := Some c |})
    with (mem r agent_roles).
  destruct (mem r agent_roles); reflexivity.
Qed.

(** What [should_stop] computes on messages that carry both keys: every
    agent message among the last three, trimmed and lower-cased, holds one
    of the phrases as they are spelled in [Config.TERMINATION_PHRASES]. *)
Lemma should_stop_keyed (chat_history : list message) :
  Forall keyed (last_n 3 chat_history) ->
  should_stop chat_history
  = Ok (forallb (fun m => generic_in (lower (strip (get (content m) ""))))
          (filter from_agent (last_n 3 chat_history))).
Proof.
  intros H. unfold should_stop. rewrite (last_few_of_keyed _ H).
  cbn [bind]. f_equal.
  induction (filter from_agent (last_n 3 chat_history)) as [|m l IH];
    [reflexivity|].
  cbn [map forallb]. now rewrite IH.
Qed.

Lemma last_few_of_no_agent (msgs : list message) :
  (forall m : message, In m msgs ->
     exists r : string, role m = Some r /\ ~ In r agent_roles) ->
  last_few_of msgs = Ok [].
Proof.
  induction msgs as [|m l IH]; intros H; [reflexivity|].
  destruct (H m (or_introl eq_refl)) as (r & Hr & Hnot).
  cbn [last_few_of]. rewrite Hr. cbn [getitem bind].
  apply mem_false in Hnot. rewrite Hnot.
  apply IH. intros m' Hin. apply H. now right.
Qed.

(** A lower-cased string holds no capital letter I, so a phrase spelled
    with one is never found in it. *)
Lemma lower_char_not_capital_I (c : ascii) : lower_char c <> "I"%char.
Proof.
  destruct c as [[] [] [] [] [] [] [] []]; vm_compute; discriminate.
Qed.

Lemma startswith_head (c d : ascii) (k s : string) :
  startswith (String c k) (String d s) = true -> c = d.
Proof.
  simpl. intros H. apply andb_prop in H as [H _]. now apply Ascii.eqb_eq.
Qed.

Lemma capital_I_phrase_never_found (k s : string) :
  contains (String "I"%char k) (lower s) = false.
Proof.
  induction s as [|c s IH]; [reflexivity|].
  cbn [lower contains]. rewrite IH, orb_false_r.
  destruct (startswith _ _) eqn:E; [|reflexivity].
  apply startswith_head in E. symmetry in E.
  now apply lower_char_not_capital_I in E.
Qed.

Example three_apologies_stop :
  should_stop
    [msg "GraphRAG_Agent" "I am sorry, please clarify";
     msg "GraphRAG_Agent" "I am sorry, please clarify";
     msg "GraphRAG_Agent" "I am sorry, please clarify"]
  = Ok true.
Proof. reflexivity. Qed.

(** C2 on the code.  An agent reply that is exactly the phrase
    ["I am sorry"] of the list does not stop the chat: the reply is
    lower-cased before the search and the phrase is not, although the
    phrase is in the list and the reply holds it once both are
    lower-cased. *)
Theorem should_stop_misses_capitalised_phrase :
  should_stop [msg "TextRAG_Agent" "I am sorry"] = Ok false
  /\ In "I am sorry" Config.TERMINATION_PHRASES
  /\ Substring (lower "I am sorry") (lower (strip "I am sorry")).
Proof.
  split; [reflexivity | split].
  - right; left; reflexivity.
  - apply contains_spec. reflexivity.
Qed.

End StallDetector.

(* ===================================================================== *)
(** * generate_response                                                    *)
(* ===================================================================== *)

Section Router.
Import ChatManager DocumentLoader.

Variable initiate_chat : agent -> string -> list message.

Lemma generate_response_loaded (cwd : node) (docs : documents) (prompt : string) :
  load_documents cwd = Ok docs ->
  generate_response initiate_chat cwd prompt
  = (chat_history <-
       run_branch initiate_chat (branch_agent prompt) (branch_prompt docs prompt) ;;
     Ok (clean_history chat_history)).
Proof.
  intros H. unfold generate_response, branch_agent, branch_prompt.
  rewrite H. cbn [bind]. destruct (is_org_related prompt); reflexivity.
Qed.

Lemma stop_message_is_kept (a : agent) : leaks (stop_message a) = false.
Proof. destruct a; reflexivity. Qed.

Lemma clean_history_stop_message (h : list message) (a : agent) :
  clean_history (h ++ [stop_message a])%list
  = (clean_history h ++ [stop_message a])%list.
Proof.
  rewrite clean_history_app. f_equal.
  unfold clean_history. cbn [filter]. now rewrite stop_message_is_kept.
Qed.

(** When [should_stop] holds of the returned history, the result is the
    cleaned history followed by the one synthetic message of the branch. *)
Lemma generate_response_stops (cwd : node) (docs : documents) (prompt : string) :
  load_documents cwd = Ok docs ->
  should_stop (initiate_chat (branch_agent prompt) (branch_prompt docs prompt))
  = Ok true ->
  generate_response initiate_chat cwd prompt
  = Ok (clean_history
          (initiate_chat (branch_agent prompt) (branch_prompt docs prompt))
        ++ [stop_message (branch_agent prompt)])%list.
Proof.
  intros Hl Hs. rewrite (generate_response_loaded _ _ _ Hl).
  unfold run_branch. rewrite Hs. cbn [bind].
  now rewrite clean_history_stop_message.
Qed.

(** Otherwise nothing is appended. *)
Lemma generate_response_goes_on (cwd : node) (docs : documents) (prompt : string) :
  load_documents cwd = Ok docs ->
  should_stop (initiate_chat (branch_agent prompt) (branch_prompt docs prompt))
  = Ok false ->
  generate_response initiate_chat cwd prompt
  = Ok (clean_history
          (initiate_chat (branch_agent prompt) (branch_prompt docs prompt))).
Proof.
  intros Hl Hs. rewrite (generate_response_loaded _ _ _ Hl).
  unfold run_branch. now rewrite Hs.
Qed.

(** Three agent replies ["I am sorry, please clarify"]: the chat stops and
    one synthetic message of the active agent follows them. *)
Lemma three_apologies_append (cwd : node) (docs : documents) (prompt : string) :
  let a := branch_agent prompt in
  let reply := msg (name a) "I am sorry, please clarify" in
  load_documents cwd = Ok docs ->
  initiate_chat a (branch_prompt docs prompt) = [reply; reply; reply] ->
  generate_response initiate_chat cwd prompt
  = Ok [reply; reply; reply; stop_message a].
Proof.
  intros a reply Hl Hh.
  rewrite (generate_response_stops _ _ _ Hl); fold a; rewrite Hh.
  - subst reply. destruct a; reflexivity.
  - subst reply. destruct a; reflexivity.
Qed.

End Router.

Section RouterClaims.
Import ChatManager DocumentLoader.

(** A history whose only message has no role: none of its last three
    messages has an agent role, yet [should_stop] does not return true, it
    raises [KeyError] on reading the role. *)
Lemma should_stop_raises_without_role :
  (forall (m : message) (r : string),
     In m (last_n 3 [Message None (Some "Hello")]) ->
     role m = Some r -> ~ In r ["TextRAG_Agent"; "GraphRAG_Agent"])
  /\ should_stop [Message None (Some "Hello")] = Raise KeyError.
Proof.
  split; [|reflexivity].
  intros m r [<- | []]. discriminate.
Qed.

(** C10, as the code has it.  When each of the last three messages of a
    history carries a role and none of these is an agent role,
    [should_stop] is true, and a [generate_response] whose conversation
    returned that history ends its result with one synthetic message of
    the agent of the branch taken: from [GraphRAG_Agent], that no relevant
    answer can be provided, for an organization-related prompt; from
    [TextRAG_Agent], the text of lines 200-201, otherwise. *)
Theorem should_stop_without_agent_message (chat_history : list message) :
  (forall m : message, In m (last_n 3 chat_history) ->
     exists r : string,
       role m = Some r /\ ~ In r ["TextRAG_Agent"; "GraphRAG_Agent"]) ->
  should_stop chat_history = Ok true
  /\ forall (initiate_chat : agent -> string -> list message)
            (cwd : node) (docs : documents) (prompt : string),
       load_documents cwd = Ok docs ->
       initiate_chat
         (if is_org_related prompt then graph_agent else text_agent)
         (if is_org_related prompt
          then org_final_prompt docs prompt
          else personal_final_prompt docs prompt)
       = chat_history ->
       generate_response initiate_chat cwd prompt
       = Ok (clean_history chat_history
             ++ [if is_org_related prompt
                 then {| role := Some "GraphRAG_Agent";
                         content :=
                           Some "Ending the chat as no relevant answer can be provided." |}
                 else {| role := Some "TextRAG_Agent";
                         content :=
                           Some "Ending the chat as no helpfulanswer can be provided." |}])%list.
Proof.
  intros H.
  assert (Hs : should_stop chat_history = Ok true).
  { unfold should_stop. now rewrite (last_few_of_no_agent _ H). }
  split; [exact Hs|].
  intros ic cwd docs prompt Hl Hh.
  rewrite (generate_response_stops ic _ _ _ Hl);
    unfold branch_agent, branch_prompt; rewrite Hh; [|exact Hs].
  destruct (is_org_related prompt); reflexivity.
Qed.

Lemma should_stop_without_agent_message_witness :
  should_stop [msg "assistant" "Any news?"; msg "user" "Ann leads the team."]
  = Ok true
  /\ generate_response
       (fun _ _ => [msg "assistant" "Any news?"; msg "user" "Ann leads the team."])
       (Dir []) "Any news?"
     = Ok [msg "assistant" "Any news?"; msg "user" "Ann leads the team.";
           msg "TextRAG_Agent"
             "Ending the chat as no helpfulanswer can be provided."].
Proof.
  destruct (should_stop_without_agent_message
              [msg "assistant" "Any news?"; msg "user" "Ann leads the team."])
    as [Hs Hg].
  - intros m [<- | [<- | []]]; eexists; (split; [reflexivity|]);
      intros [E | [E | []]]; discriminate.
  - split; [exact Hs|].
    exact (Hg (fun _ _ => _) (Dir []) _ "Any news?" eq_refl eq_refl).
Defined.

End RouterClaims.

(* ===================================================================== *)
(** * The prompt of the organization branch                                *)
(* ===================================================================== *)

Section OrgPrompt.
Import ChatManager DocumentLoader.

Lemma Suffix_refl (s : string) : Suffix s s.
Proof. now exists "". Qed.

Lemma Suffix_append_l (k a s : string) : Suffix k s -> Suffix k (a ++ s).
Proof. intros [x ->]. exists (a ++ x). now rewrite append_assoc. Qed.

(** A joined string holds each of its parts. *)
Lemma join_Substring (sep x : string) (xs : list string) :
  In x xs -> Substring x (join sep xs).
Proof.
  induction xs as [|y [|z l] IH]; intros Hin.
  - destruct Hin.
  - destruct Hin as [-> | []]. apply Substring_refl.
  - cbn [join]. destruct Hin as [-> | Hin].
    + apply Substring_append_r, Substring_refl.
    + apply Substring_append_l, Substring_append_l, IH, Hin.
Qed.

Lemma refence_Substring (block : string) : Substring block (refence block).
Proof.
  unfold refence. do 2 apply Substring_append_l.
  apply Substring_append_r, Substring_refl.
Qed.

(** The prompt holds every extracted block as it was extracted. *)
Lemma org_final_prompt_blocks (docs : documents) (prompt block : string) :
  In block (mermaid_blocks_of docs) ->
  Substring block (org_final_prompt docs prompt).
Proof.
  intros Hin. unfold org_final_prompt. cbv zeta.
  do 8 apply Substring_append_l. apply Substring_append_r.
  apply (Substring_trans _ _ _ (refence_Substring block)).
  apply join_Substring, in_map, Hin.
Qed.

Lemma org_final_prompt_preamble (docs : documents) (prompt : string) :
  Substring "Based on the following" (org_final_prompt docs prompt).
Proof.
  unfold org_final_prompt. cbv zeta. apply Substring_append_r.
  apply contains_spec. reflexivity.
Qed.

Lemma org_final_prompt_question (docs : documents) (prompt : string) :
  Suffix ("User's question: " ++ prompt) (org_final_prompt docs prompt).
Proof.
  unfold org_final_prompt. cbv zeta.
  do 11 apply Suffix_append_l. apply Suffix_refl.
Qed.

(** With [chart.md] loaded and an organization question asked, the prompt
    does not hold the phrase in lower case: the template spells it with a
    capital B. *)
Lemma org_prompt_lacks_lower_case_preamble :
  is_org_related manager_question = true
  /\ load_documents chart_cwd = Ok chart_docs
  /\ mermaid_blocks_of chart_docs = ["graph TD; A-->B" ++ nl]
  /\ ~ Substring "based on the following"
         (org_final_prompt chart_docs manager_question).
Proof.
  repeat split.
  apply contains_false. reflexivity.
Qed.

(** C4, as the code has it.  For an organization-related prompt and org
    documents with one diagram block holding [graph TD; A-->B], the prompt
    handed to the graph agent is one string that holds [graph TD; A-->B],
    starts its template with the phrase [Based on the following] (capital
    B, so the phrase in lower case is found in the lower-cased prompt, as
    the sanitizer searches it), and ends with the user's question. *)
Theorem org_final_prompt_spec
    (initiate_chat : agent -> string -> list message)
    (cwd : node) (docs : documents) (prompt block : string) :
  is_org_related prompt = true ->
  load_documents cwd = Ok docs ->
  mermaid_blocks_of docs = [block] ->
  Substring "graph TD; A-->B" block ->
  let final_prompt := org_final_prompt docs prompt in
  generate_response initiate_chat cwd prompt
  = (chat_history <- run_branch initiate_chat graph_agent final_prompt ;;
     Ok (clean_history chat_history))
  /\ Substring "graph TD; A-->B" final_prompt
  /\ Substring "Based on the following" final_prompt
  /\ Substring "based on the following" (lower final_prompt)
  /\ Suffix ("User's question: " ++ prompt) final_prompt.
Proof.
  intros Horg Hl Hb Hsub final_prompt. subst final_prompt.
  split; [|split; [|split; [|split]]].
  - rewrite (generate_response_loaded initiate_chat _ _ _ Hl).
    unfold branch_agent, branch_prompt. now rewrite Horg.
  - apply (Substring_trans _ _ _ Hsub).
    apply org_final_prompt_blocks. rewrite Hb. now left.
  - apply org_final_prompt_preamble.
  - apply (Substring_lower "Based on the following").
    apply org_final_prompt_preamble.
  - apply org_final_prompt_question.
Qed.

Lemma org_final_prompt_spec_witness :
  Substring "graph TD; A-->B" (org_final_prompt chart_docs manager_question)
  /\ Substring "based on the following"
       (lower (org_final_prompt chart_docs manager_question)).
Proof.
  destruct (org_final_prompt_spec (fun _ _ => []) chart_cwd chart_docs
              manager_question ("graph TD; A-->B" ++ nl))
    as (_ & Hbody & _ & Hlow & _).
  - reflexivity.
  - reflexivity.
  - reflexivity.
  - apply contains_spec. reflexivity.
  - split; [exact Hbody | exact Hlow].
Defined.

End OrgPrompt.

(* ===================================================================== *)
(** * Presentation                                                         *)
(* ===================================================================== *)

Section Presentation.
Import ChatManager.

Lemma getattr_USER_IMAGE : Config.getattr "USER_IMAGE" = Raise AttributeError.
Proof. reflexivity. Qed.

(** Outside the four roles it knows, [_get_avatar] reaches
    [Config.USER_IMAGE], which the class does not define. *)
Lemma get_avatar_other_role (r : string) :
  ~ In r ["user_proxy"; "user"; "TextRAG_Agent"; "GraphRAG_Agent"] ->
  _get_avatar r = Raise AttributeError.
Proof.
  intros H. unfold _get_avatar.
  destruct (String.eqb_spec r "user_proxy") as [-> | _].
  { exfalso. apply H. now left. }
  destruct (String.eqb_spec r "user") as [-> | _].
  { exfalso. apply H. right. now left. }
  destruct (mem r ["TextRAG_Agent"; "GraphRAG_Agent"]) eqn:E.
  { exfalso. apply mem_spec in E. apply H. right. right. exact E. }
  reflexivity.
Qed.

(** C8 on the code.  The four known roles get their avatar; the role
    ["assistant"], which [show_chat_history] itself uses for a message
    without a role, raises [AttributeError] instead of getting a default
    avatar. *)
Theorem get_avatar_default_raises :
  _get_avatar "user_proxy" = Ok Brain
  /\ _get_avatar "user" = Ok OfficeWorker
  /\ _get_avatar "TextRAG_Agent" = Ok OfficeWorker
  /\ _get_avatar "GraphRAG_Agent" = Ok OfficeWorker
  /\ _get_avatar "assistant" = Raise AttributeError.
Proof. repeat split. Qed.

Lemma show_entry_spec (i len : nat) (entry : message) (u : ui) :
  exists (ne : list event) (ns : list stored),
    timeline (fst (show_entry i len entry u)) = (timeline u ++ ne)%list
    /\ rag_messages (fst (show_entry i len entry u)) = (rag_messages u ++ ns)%list
    /\ Forall (fun e => ev_entry e = i
                        /\ strip (get (content entry) "") <> "") ne
    /\ Forall (fun s => st_content s <> "") ns.
Proof.
  unfold show_entry. cbv zeta.
  destruct (String.eqb_spec (strip (get (content entry) "")) "") as [E | E].
  { exists [], []. cbn [fst]. rewrite !app_nil_r. repeat split; constructor. }
  destruct (_get_avatar (get (role entry) "assistant")) as [a | x].
  2:{ exists [], []. cbn [fst]. rewrite !app_nil_r. repeat split; constructor. }
  destruct (String.eqb (get (role entry) "assistant") "user_proxy");
    [|destruct (String.eqb (get (role entry) "assistant") "user");
      [|destruct (mem (get (role entry) "assistant") _);
        [|rewrite getattr_USER_IMAGE]]];
    cbn [fst timeline rag_messages];
    lazymatch goal with
    | |- context [(timeline u ++ [?ev])%list] => exists [ev]
    | |- _ => exists []; rewrite ?app_nil_r
    end;
    eexists; (split; [reflexivity|]); (split; [reflexivity|]);
    split; repeat constructor; cbn [ev_entry st_content]; auto.
Qed.

Lemma show_from_spec (entries : list message) (i len : nat) (u : ui) :
  exists (ne : list event) (ns : list stored),
    timeline (fst (show_from i len entries u)) = (timeline u ++ ne)%list
    /\ rag_messages (fst (show_from i len entries u)) = (rag_messages u ++ ns)%list
    /\ Forall (fun e => exists m : message,
                 nth_error entries (ev_entry e - i) = Some m
                 /\ i <= ev_entry e
                 /\ strip (get (content m) "") <> "") ne
    /\ Forall (fun s => st_content s <> "") ns.
Proof.
  revert i u. induction entries as [|entry rest IH]; intros i u.
  - exists [], []. cbn [show_from fst]. rewrite !app_nil_r.
    repeat split; constructor.
  - cbn [show_from].
    destruct (show_entry_spec i len entry u) as (ne1 & ns1 & Ht & Hr & He & Hs).
    assert (He' : Forall (fun e => exists m : message,
                    nth_error (entry :: rest) (ev_entry e - i) = Some m
                    /\ i <= ev_entry e
                    /\ strip (get (content m) "") <> "") ne1).
    { eapply Forall_impl; [|exact He]. intros e [-> Hne].
      exists entry. rewrite Nat.sub_diag. auto. }
    destruct (show_entry i len entry u) as [u1 [[] | x]]; cbn [fst] in *.
    + destruct (IH (S i) u1) as (ne2 & ns2 & Ht2 & Hr2 & He2 & Hs2).
      exists (ne1 ++ ne2)%list, (ns1 ++ ns2)%list.
      rewrite Ht2, Hr2, Ht, Hr, !app_assoc.
      repeat split; try apply Forall_app; repeat split; auto.
      eapply Forall_impl; [|exact He2]. intros e (m & Hn & Hle & Hne).
      exists m. replace (ev_entry e - i) with (S (ev_entry e - S i)) by lia.
      repeat split; auto. lia.
    + exists ne1, ns1. auto.
Qed.

Example show_skips_blank_message :
  timeline
    (fst (show_chat_history
            [msg "user" "  "; msg "TextRAG_Agent" (" Ann leads." ++ nl)]
            (Ui [] [])))
  = [Event 1 "assistant" OfficeWorker (WriteStream ["Ann "; "leads. "])].
Proof. reflexivity. Qed.

Example show_raises_on_other_role :
  show_chat_history [msg "assistant" "hello"; msg "user" "hi"] (Ui [] [])
  = (Ui [] [], Raise AttributeError).
Proof. reflexivity. Qed.

(** C7.  Whatever [show_chat_history] adds to the timeline was rendered
    for an entry of the history whose trimmed content is not empty; so an
    entry whose trimmed content is empty is rendered by no event, whatever
    its role, and nothing with empty content is stored either. *)
Theorem show_chat_history_skips_empty (chat_history : list message) (u : ui) :
  exists (new_events : list event) (new_stored : list stored),
    timeline (fst (show_chat_history chat_history u))
    = (timeline u ++ new_events)%list
    /\ rag_messages (fst (show_chat_history chat_history u))
       = (rag_messages u ++ new_stored)%list
    /\ (forall e : event, In e new_events ->
          exists m : message,
            nth_error chat_history (ev_entry e) = Some m
            /\ strip (get (content m) "") <> "")
    /\ (forall (i : nat) (m : message),
          nth_error chat_history i = Some m ->
          strip (get (content m) "") = "" ->
          forall e : event, In e new_events -> ev_entry e <> i)
    /\ (forall s : stored, In s new_stored -> st_content s <> "").
Proof.
  unfold show_chat_history.
  destruct (show_from_spec chat_history 0 (List.length chat_history) u)
    as (ne & ns & Ht & Hr & He & Hs).
  rewrite Forall_forall in He, Hs.
  assert (Hev : forall e : event, In e ne ->
            exists m : message,
              nth_error chat_history (ev_entry e) = Some m
              /\ strip (get (content m) "") <> "").
  { intros e Hin. destruct (He e Hin) as (m & Hn & _ & Hne).
    rewrite Nat.sub_0_r in Hn. eauto. }
  exists ne, ns. repeat split; auto.
  intros i m Hn Hempty e Hin <-.
  destruct (Hev e Hin) as (m' & Hn' & Hne). congruence.
Qed.

End Presentation.

(* ===================================================================== *)
(** * The document loader                                                  *)
(* ===================================================================== *)

Section Loader.
Import DocumentLoader.

(** ** Dictionaries *)

Lemma dict_get_set_same {V : Type} (k : string) (v : V) (d : dict V) :
  dict_get k (dict_set k v d) = Some v.
Proof.
  induction d as [|[k' v'] d IH]; simpl.
  - now rewrite String.eqb_refl.
  - destruct (String.eqb k k') eqn:E; simpl; rewrite E; auto.
Qed.


Lemma dict_set_set {V : Type} (k : string) (v w : V) (d : dict V) :
  dict_set k v (dict_set k w d) = dict_set k v d.
Proof.
  induction d as [|[k' v'] d IH]; simpl.
  - now rewrite String.eqb_refl.
  - destruct (String.eqb k k') eqn:E; simpl; rewrite E; [reflexivity|].
    now rewrite IH.
Qed.

Lemma dict_set_get_same {V : Type} (k : string) (v : V) (d : dict V) :
  dict_get k d = Some v -> dict_set k v d = d.
Proof.
  induction d as [|[k' v'] d IH]; simpl; [discriminate|].
  destruct (String.eqb k k'); [now intros [= ->] | intros H; now rewrite IH].
Qed.


(** ** Paths *)



(** ** The inner loop *)


(** ** One category *)


Lemma load_categories_cons (cwd : node) (category : string) (p : path)
    (rest : list (string * path)) (docs : documents) :
  load_categories cwd ((category, p) :: rest) docs
  = (docs' <-
       (if exists_ cwd p
        then fnames <- listdir cwd p ;; load_files cwd p category fnames docs
        else Ok docs) ;;
     load_categories cwd rest docs').
Proof.
  cbn [load_categories]. destruct (exists_ cwd p); [|reflexivity].
  destruct (listdir cwd p); reflexivity.
Qed.

Example load_chart : load_documents chart_cwd = Ok chart_docs.
Proof. reflexivity. Qed.

Example load_without_directories :
  load_documents (Dir []) = Ok [("personal", []); ("org", [])].
Proof. reflexivity. Qed.

Example load_ignores_other_files_and_subdirectories :
  load_documents
    (Dir [("uploaded_docs",
           Dir [("personal",
                 Dir [("a.md", File (Some "alpha"));
                      ("notes.txt", File (Some "skipped"));
                      ("sub", Dir [("b.md", File (Some "beta"))])])])])
  = Ok [("personal", [("a.md", "alpha")]); ("org", [])].
Proof. reflexivity. Qed.

Example load_raises_on_invalid_text :
  load_documents
    (Dir [("uploaded_docs", Dir [("org", Dir [("a.md", File None)])])])
  = Raise UnicodeDecodeError.
Proof. reflexivity. Qed.




End Loader.

(* ===================================================================== *)
(** * Streaming                                                            *)
(* ===================================================================== *)

Section Streaming.
Import ChatManager RagAgentsPage.

Lemma chars_append (a b : string) :
  list_ascii_of_string (a ++ b)
  = (list_ascii_of_string a ++ list_ascii_of_string b)%list.
Proof. induction a as [|c a IH]; simpl; [reflexivity | now rewrite IH]. Qed.

Lemma flatten_chunks_of_split_on (w s : string) :
  flatten (map (fun word => word ++ " ") (split_on " "%char w s))
  = w ++ s ++ " ".
Proof.
  revert w; induction s as [|c s IH]; intros w.
  - simpl. now rewrite append_nil_r.
  - cbn [split_on]. destruct (Ascii.eqb_spec c " "%char) as [-> | _].
    + cbn [map flatten fold_right]. fold (flatten (map (fun word => word ++ " ")
                                                    (split_on " "%char "" s))).
      rewrite IH. simpl. now rewrite !append_assoc.
    + rewrite IH. now rewrite !append_assoc.
Qed.

Lemma split_on_words (w s : string) :
  ~ In " "%char (list_ascii_of_string w) ->
  Forall (fun word => ~ In " "%char (list_ascii_of_string word))
    (split_on " "%char w s).
Proof.
  revert w; induction s as [|c s IH]; intros w Hw; cbn [split_on].
  - now constructor.
  - destruct (Ascii.eqb_spec c " "%char) as [-> | Hc].
    + constructor; [assumption|]. apply IH. intros [].
    + apply IH. rewrite chars_append. intros Hin.
      apply in_app_or in Hin as [Hin | [E | []]]; [now apply Hw | congruence].
Qed.

Lemma split_on_length (w s : string) :
  List.length (split_on " "%char w s) = S (spaces s).
Proof.
  unfold spaces. revert w; induction s as [|c s IH]; intros w; [reflexivity|].
  cbn [split_on list_ascii_of_string filter].
  rewrite (Ascii.eqb_sym " "%char c).
  destruct (Ascii.eqb c " "%char); cbn [List.length]; now rewrite IH.
Qed.

(** X1.  Put one after the other, the chunks of [stream_data] give back
    the text followed by one space. *)
Theorem stream_data_flatten (stream_str : string) :
  flatten (stream_data stream_str) = stream_str ++ " ".
Proof. unfold stream_data. now rewrite flatten_chunks_of_split_on. Qed.

(** X2.  Every chunk of [stream_data] is a piece without a space followed
    by one space, and there is one chunk more than the text has spaces:
    at least one, also for the empty text. *)
Theorem stream_data_chunks (stream_str : string) :
  Forall
    (fun chunk =>
       exists word : string,
         chunk = word ++ " " /\ ~ In " "%char (list_ascii_of_string word))
    (stream_data stream_str)
  /\ List.length (stream_data stream_str) = S (spaces stream_str).
Proof.
  unfold stream_data. split.
  - apply Forall_map.
    eapply Forall_impl; [|apply split_on_words; intros []].
    intros word Hw. now exists word.
  - now rewrite length_map, split_on_length.
Qed.

(** ** [stream_response] *)

Lemma split_from_words (w s : string) :
  (forall c : ascii, In c (list_ascii_of_string w) -> isspace c = false) ->
  Forall
    (fun word =>
       word <> ""
       /\ forall c : ascii, In c (list_ascii_of_string word) -> isspace c = false)
    (split_from w s).
Proof.
  revert w; induction s as [|c s IH]; intros w Hw; cbn [split_from].
  - destruct (String.eqb_spec w ""); constructor; auto.
  - destruct (isspace c) eqn:Ec.
    + destruct (String.eqb_spec w "").
      * apply IH. intros ? [].
      * constructor; [auto|]. apply IH. intros ? [].
    + apply IH. intros d. rewrite chars_append. intros Hin.
      apply in_app_or in Hin as [Hin | [<- | []]]; auto.
Qed.

Lemma visible_append (a b : string) :
  visible (a ++ b) = (visible a ++ visible b)%list.
Proof. unfold visible. now rewrite chars_append, filter_app. Qed.

Lemma visible_word (w : string) :
  (forall c : ascii, In c (list_ascii_of_string w) -> isspace c = false) ->
  visible w = list_ascii_of_string w.
Proof.
  unfold visible. induction w as [|c w IH]; intros H; [reflexivity|].
  cbn [list_ascii_of_string filter].
  rewrite (H c (or_introl eq_refl)). cbn [negb].
  rewrite IH; [reflexivity|]. intros d Hd. apply H. now right.
Qed.

Lemma visible_chunks_of_split_from (w s : string) :
  (forall c : ascii, In c (list_ascii_of_string w) -> isspace c = false) ->
  visible (flatten (map (fun word => word ++ " ") (split_from w s)))
  = (list_ascii_of_string w ++ visible s)%list.
Proof.
  revert w; induction s as [|c s IH]; intros w Hw; cbn [split_from].
  - destruct (String.eqb_spec w "") as [-> | _]; [reflexivity|].
    cbn [map flatten fold_right]. rewrite append_nil_r, visible_append.
    now rewrite (visible_word _ Hw).
  - unfold visible at 2. cbn [list_ascii_of_string filter].
    fold (visible s). destruct (isspace c) eqn:Ec; cbn [negb].
    + destruct (String.eqb_spec w "") as [-> | _].
      * apply IH. intros ? [].
      * cbn [map flatten fold_right].
        fold (flatten (map (fun word => word ++ " ") (split_from "" s))).
        rewrite !visible_append, (IH "") by (intros ? []).
        rewrite (visible_word _ Hw). cbn [list_ascii_of_string app].
        now rewrite app_nil_r.
    + rewrite IH.
      * rewrite chars_append. cbn [list_ascii_of_string].
        now rewrite <- app_assoc.
      * intros d. rewrite chars_append. intros Hin.
        apply in_app_or in Hin as [Hin | [<- | []]]; auto.
Qed.

Lemma split_from_nil (w s : string) :
  split_from w s = []
  <-> w = "" /\ forallb isspace (list_ascii_of_string s) = true.
Proof.
  revert w; induction s as [|c s IH]; intros w; cbn [split_from].
  - destruct (String.eqb_spec w ""); split; try tauto; try discriminate.
  - cbn [list_ascii_of_string forallb]. destruct (isspace c); cbn [andb].
    + destruct (String.eqb_spec w "") as [-> | Hw].
      * apply IH.
      * split; [discriminate | intros [? _]; contradiction].
    + rewrite IH. split; [|intros [_ ?]; discriminate].
      intros [H _]. destruct w; discriminate.
Qed.

Lemma rstrip_empty (s : string) :
  rstrip s = "" <-> forallb isspace (list_ascii_of_string s) = true.
Proof.
  induction s as [|c s IH]; [now split|].
  cbn [rstrip list_ascii_of_string forallb].
  destruct (rstrip s) as [|d r].
  - destruct (isspace c); cbn [andb].
    + split; [intros _; now apply IH | reflexivity].
    + split; discriminate.
  - split; [discriminate|]. intros H. apply andb_prop in H as [_ H].
    apply IH in H. discriminate.
Qed.

Lemma lstrip_blank (s : string) :
  forallb isspace (list_ascii_of_string (lstrip s))
  = forallb isspace (list_ascii_of_string s).
Proof.
  induction s as [|c s IH]; [reflexivity|].
  cbn [lstrip]. destruct (isspace c) eqn:Ec.
  - cbn [list_ascii_of_string forallb]. now rewrite Ec.
  - reflexivity.
Qed.

Lemma strip_empty (s : string) :
  strip s = "" <-> forallb isspace (list_ascii_of_string s) = true.
Proof. unfold strip. now rewrite rstrip_empty, lstrip_blank. Qed.

(** X3.  Every chunk of [stream_response] is a non-empty word without
    white space followed by one space. *)
Theorem stream_response_chunks (text : string) :
  Forall
    (fun chunk =>
       exists word : string,
         chunk = word ++ " "
         /\ word <> ""
         /\ forall c : ascii,
              In c (list_ascii_of_string word) -> isspace c = false)
    (stream_response text).
Proof.
  unfold stream_response, split. apply Forall_map.
  eapply Forall_impl; [|apply split_from_words; intros ? []].
  intros word [Hne Hw]. now exists word.
Qed.

(** X4.  [stream_response] shows the characters of the text that are not
    white space, all of them and in order: only white space is dropped or
    added between the chunks. *)
Theorem stream_response_visible (text : string) :
  visible (flatten (stream_response text)) = visible text.
Proof.
  unfold stream_response, split.
  now rewrite visible_chunks_of_split_from by (intros ? []).
Qed.

(** X5.  [stream_response] yields no chunk exactly when the text is empty
    once trimmed; so the content [show_chat_history] streams, which is
    trimmed and not empty, always gives at least one chunk. *)
Theorem stream_response_empty (text : string) :
  stream_response text = [] <-> strip text = "".
Proof.
  unfold stream_response, split. rewrite strip_empty. split.
  - intros H. apply map_eq_nil in H. now apply split_from_nil in H.
  - intros H. assert (E : split_from "" text = []) by now apply split_from_nil.
    now rewrite E.
Qed.

End Streaming.

(* ===================================================================== *)
(** * Termination phrases, once more                                       *)
(* ===================================================================== *)

Section TerminationPhrases.
Import ChatManager.

Lemma generic_in_lower (s : string) :
  generic_in (lower s) = true
  <-> exists phrase : string,
        In phrase ["need more information"; "please provide a question";
                   "please clarify"; "no relevant answer"]
        /\ Substring phrase (lower s).
Proof.
  unfold generic_in, Config.TERMINATION_PHRASES. cbn [existsb].
  rewrite !capital_I_phrase_never_found. cbn [orb].
  rewrite orb_false_r. rewrite <- existsb_contains. cbn [existsb].
  now rewrite orb_false_r.
Qed.

(** X6.  The proxy's [is_termination_msg] is true exactly when one of the
    four phrases spelled in lower case occurs in the lower-cased text of
    the message; the three phrases that start with a capital I never
    decide it. *)
Theorem is_termination_msg_phrases
    (content_str : string -> string) (x : message) :
  AgentFactory.is_termination_msg content_str x = true
  <-> exists phrase : string,
        In phrase ["need more information"; "please provide a question";
                   "please clarify"; "no relevant answer"]
        /\ Substring phrase (lower (content_str (get (content x) ""))).
Proof. apply generic_in_lower. Qed.

Lemma last_n_app {A : Type} (n : nat) (older recent : list A) :
  n <= List.length recent -> last_n n (older ++ recent)%list = last_n n recent.
Proof.
  intros H. unfold last_n. rewrite length_app, skipn_app.
  rewrite skipn_all2 by lia. cbn [app]. f_equal. lia.
Qed.

(** X7.  [should_stop] looks at the last three messages only: whatever
    comes before them, messages it could not read included, changes
    nothing. *)
Theorem should_stop_last_three (older recent : list message) :
  3 <= List.length recent ->
  should_stop (older ++ recent)%list = should_stop recent.
Proof.
  intros H. unfold should_stop. now rewrite last_n_app.
Qed.

Lemma should_stop_last_three_witness :
  should_stop
    ([Message None None]
     ++ [msg "user" "Hello"; msg "TextRAG_Agent" "Please clarify.";
         msg "TextRAG_Agent" "I apologize, please clarify"])%list
  = should_stop
      [msg "user" "Hello"; msg "TextRAG_Agent" "Please clarify.";
       msg "TextRAG_Agent" "I apologize, please clarify"].
Proof.
  apply (should_stop_last_three [Message None None]).
  simpl. lia.
Defined.

Lemma last_few_of_readable (msgs : list message) :
  last_few_of msgs
  = if forallb readable msgs
    then Ok (map (fun m => lower (strip (get (content m) "")))
               (filter from_agent msgs))
    else Raise KeyError.
Proof.
  induction msgs as [|m l IH]; [reflexivity|].
  cbn [last_few_of forallb filter]. rewrite IH.
  generalize (forallb readable l) as rest_ok.
  generalize (filter from_agent l) as agents.
  intros agents rest_ok.
  destruct m as [[r|] [c|]];
    cbv beta iota delta [readable from_agent role content getitem bind get];
    try reflexivity.
  - destruct (mem r agent_roles); destruct rest_ok; reflexivity.
  - destruct (mem r agent_roles); destruct rest_ok; reflexivity.
Qed.

(** X8.  [should_stop] raises [KeyError] exactly when one of the last
    three messages has no role, or has an agent role and no content;
    otherwise it returns, and says whether every agent message among the
    three holds a phrase. *)
Theorem should_stop_readable (chat_history : list message) :
  should_stop chat_history
  = if forallb readable (last_n 3 chat_history)
    then Ok (forallb
               (fun m => generic_in (lower (strip (get (content m) ""))))
               (filter from_agent (last_n 3 chat_history)))
    else Raise KeyError.
Proof.
  unfold should_stop. rewrite last_few_of_readable.
  destruct (forallb readable (last_n 3 chat_history)); [|reflexivity].
  cbn [bind]. f_equal.
  induction (filter from_agent (last_n 3 chat_history)) as [|m l IH];
    [reflexivity|].
  cbn [map forallb]. now rewrite IH.
Qed.

End TerminationPhrases.

(* ===================================================================== *)
(** * The router, once more                                                *)
(* ===================================================================== *)

Section RouterExtras.
Import ChatManager DocumentLoader.

Lemma personal_final_prompt_preamble (docs : documents) (prompt : string) :
  Substring "Use the following" (personal_final_prompt docs prompt).
Proof.
  unfold personal_final_prompt. cbv zeta. apply Substring_append_r.
  apply contains_spec. reflexivity.
Qed.

Lemma branch_prompt_leaks (docs : documents) (prompt : string) (m : message) :
  content m = Some (branch_prompt docs prompt) -> leaks m = true.
Proof.
  intros Hc. apply leaks_spec. rewrite Hc. cbn [get].
  unfold branch_prompt. destruct (is_org_related prompt).
  - exists "based on the following". split; [right; right; now left|].
    apply (Substring_lower "Based on the following").
    apply org_final_prompt_preamble.
  - exists "use the following". split; [right; right; right; now left|].
    apply (Substring_lower "Use the following").
    apply personal_final_prompt_preamble.
Qed.

(** X9.  Whatever the conversation returns, no message of the result of
    [generate_response] has the assembled prompt as its content: an echo
    of the prompt never reaches the user. *)
Theorem generate_response_drops_prompt
    (initiate_chat : agent -> string -> list message)
    (cwd : node) (docs : documents) (prompt : string) (h : list message) :
  load_documents cwd = Ok docs ->
  generate_response initiate_chat cwd prompt = Ok h ->
  forall m : message,
    In m h -> content m <> Some (branch_prompt docs prompt).
Proof.
  intros Hl Hg m Hin Hc.
  rewrite (generate_response_loaded initiate_chat _ _ _ Hl) in Hg.
  destruct (run_branch initiate_chat (branch_agent prompt)
              (branch_prompt docs prompt)) as [h0 | e]; [|discriminate].
  cbn [bind] in Hg. injection Hg as <-.
  apply filter_In in Hin as [_ Hkeep].
  rewrite (branch_prompt_leaks _ _ _ Hc) in Hkeep. discriminate.
Qed.

Lemma generate_response_drops_prompt_witness :
  generate_response echoing_chat chart_cwd manager_question
  = Ok [msg "user" "Ann leads the team."; stop_message graph_agent]
  /\ forall m : message,
       In m [msg "user" "Ann leads the team."; stop_message graph_agent] ->
       content m <> Some (branch_prompt chart_docs manager_question).
Proof.
  assert (Hg : generate_response echoing_chat chart_cwd manager_question
               = Ok [msg "user" "Ann leads the team."; stop_message graph_agent])
    by reflexivity.
  split; [exact Hg|].
  exact (generate_response_drops_prompt echoing_chat chart_cwd chart_docs
           manager_question _ eq_refl Hg).
Defined.

(** X10.  For a prompt that is not organization-related, the prompt handed
    to the text agent holds every personal note under a heading with its
    file name, starts its template with [Use the following], and ends with
    the user's question. *)
Theorem personal_final_prompt_spec
    (initiate_chat : agent -> string -> list message)
    (cwd : node) (docs : documents) (notes : dict string)
    (prompt fname text : string) :
  is_org_related prompt = false ->
  load_documents cwd = Ok docs ->
  dict_get "personal" docs = Some notes ->
  In (fname, text) notes ->
  let final_prompt := personal_final_prompt docs prompt in
  generate_response initiate_chat cwd prompt
  = (chat_history <- run_branch initiate_chat text_agent final_prompt ;;
     Ok (clean_history chat_history))
  /\ Substring ("# " ++ fname ++ nl ++ text) final_prompt
  /\ Substring "Use the following" final_prompt
  /\ Suffix ("User's question: " ++ prompt) final_prompt.
Proof.
  intros Hp Hl Hn Hin final_prompt. subst final_prompt.
  split; [|split; [|split]].
  - rewrite (generate_response_loaded initiate_chat _ _ _ Hl).
    unfold branch_agent, branch_prompt. now rewrite Hp.
  - unfold personal_final_prompt, dict_get_default, items.
    unfold dict in Hn. rewrite Hn.
    cbv zeta. do 6 apply Substring_append_l. apply Substring_append_r.
    apply join_Substring.
    exact (in_map (fun item => "# " ++ fst item ++ nl ++ snd item) _ _ Hin).
  - apply personal_final_prompt_preamble.
  - unfold personal_final_prompt. cbv zeta.
    do 9 apply Suffix_append_l. apply Suffix_refl.
Qed.

Lemma personal_final_prompt_spec_witness :
  Substring ("# " ++ "monday.md" ++ nl ++ "Met Ann.")
    (personal_final_prompt note_docs "What did I note on Monday?").
Proof.
  destruct (personal_final_prompt_spec echoing_chat note_cwd note_docs
              [("monday.md", "Met Ann.")] "What did I note on Monday?"
              "monday.md" "Met Ann.")
    as (_ & H & _).
  - reflexivity.
  - reflexivity.
  - reflexivity.
  - now left.
  - exact H.
Defined.

Lemma lower_char_idempotent (c : ascii) :
  lower_char (lower_char c) = lower_char c.
Proof.
  destruct c as [[] [] [] [] [] [] [] []]; vm_compute; reflexivity.
Qed.

Lemma lower_idempotent (s : string) : lower (lower s) = lower s.
Proof.
  induction s as [|c s IH]; [reflexivity|].
  cbn [lower]. now rewrite lower_char_idempotent, IH.
Qed.

(** X11.  Text put before or after an organization-related prompt leaves
    it organization-related. *)
Theorem is_org_related_monotone (before prompt after : string) :
  is_org_related prompt = true ->
  is_org_related (before ++ prompt ++ after) = true.
Proof.
  unfold is_org_related. cbv zeta. rewrite !existsb_contains.
  intros (k & Hin & Hsub). exists k. split; [assumption|].
  rewrite !lower_append.
  now apply Substring_append_l, Substring_append_r.
Qed.

Lemma is_org_related_monotone_witness :
  is_org_related ("Tell me: " ++ "who is my manager" ++ "? Thanks.") = true.
Proof.
  apply (is_org_related_monotone "Tell me: " "who is my manager" "? Thanks.").
  reflexivity.
Defined.

(** X12.  The classifier does not see letter case: a prompt and its
    lower-cased form are classified alike. *)
Theorem is_org_related_lower (prompt : string) :
  is_org_related (lower prompt) = is_org_related prompt.
Proof.
  unfold is_org_related. cbv zeta. now rewrite lower_idempotent.
Qed.

End RouterExtras.

(* ===================================================================== *)
(** * The diagram extractor, once more                                     *)
(* ===================================================================== *)

Section ExtractorExtras.
Import MermaidExtractor ChatManager.

(** X13.  Every block [extract_mermaid_blocks] returns stands in the text
    between an opening marker and a fence: nothing is made up. *)
Theorem extracted_block_is_fenced (markdown_text b : string) :
  In b (extract_mermaid_blocks markdown_text) ->
  Substring (opener ++ b ++ fence) markdown_text.
Proof.
  unfold extract_mermaid_blocks.
  remember (String.length markdown_text) as n eqn:Hn.
  revert markdown_text Hn. induction n as [n IH] using lt_wf_ind.
  intros text ->.
  destruct (findall text) as [|g l] eqn:E; [intros []|].
  destruct (findall_cons_inv _ _ _ E) as (pre & r & rest & Ho & Hf & ->).
  pose proof (FirstAt_rest_shorter _ _ _ _ _ Ho Hf) as Hlt.
  destruct Ho as [-> _]. destruct Hf as [-> _].
  intros [<- | Hin].
  - exists pre, rest. now rewrite !append_assoc.
  - apply Substring_append_l. do 3 apply Substring_append_l.
    eapply IH; [exact Hlt | reflexivity | exact Hin].
Qed.

Lemma extracted_block_is_fenced_witness :
  Substring (opener ++ ("graph TD" ++ nl) ++ fence) fenced_graph_td.
Proof.
  apply (extracted_block_is_fenced fenced_graph_td ("graph TD" ++ nl)).
  left. reflexivity.
Defined.

Lemma fence_after_line_break (b : string) :
  ~ Substring fence b -> FirstAt fence (b ++ nl) "" (b ++ nl ++ fence).
Proof.
  intros Hb. split.
  - now rewrite !append_assoc, append_nil_r.
  - intros a' b' H.
    destruct (Nat.le_gt_cases (String.length (b ++ nl)) (String.length a'))
      as [Hle | Hgt]; [exact Hle | exfalso].
    rewrite append_length in Hgt. cbn [String.length nl] in Hgt.
    symmetry in H.
    destruct (append_split _ _ _ _ H) as (m & -> & Hm); [lia|].
    destruct m as [|x [|y [|z m]]]; cbn in Hm; try discriminate.
    injection Hm as <- <- <- _.
    apply Hb. now exists a', m.
Qed.

(** X14.  The diagram [generate_response] fences again for the prompt is
    well formed: extracting from the re-fenced block gives back that one
    block, with the line break the template puts after it. *)
Theorem extract_refenced_block (markdown_text b : string) :
  In b (extract_mermaid_blocks markdown_text) ->
  extract_mermaid_blocks (refence b) = [b ++ nl].
Proof.
  intros Hin. apply extracted_block_has_no_fence in Hin.
  unfold extract_mermaid_blocks, refence.
  change ("```mermaid" ++ nl ++ b ++ nl ++ "```")
    with (opener ++ b ++ nl ++ fence).
  rewrite (findall_match _ (b ++ nl) "").
  - now rewrite findall_empty.
  - rewrite match_at_opener.
    now apply lazy_until_first, fence_after_line_break.
Qed.

Lemma extract_refenced_block_witness :
  extract_mermaid_blocks (refence ("graph TD; A-->B" ++ nl))
  = [("graph TD; A-->B" ++ nl) ++ nl].
Proof.
  apply (extract_refenced_block chart_md ("graph TD; A-->B" ++ nl)).
  left. reflexivity.
Defined.

End ExtractorExtras.

(* ===================================================================== *)
(** * The document loader, once more                                       *)
(* ===================================================================== *)

Section LoaderExtras.
Import DocumentLoader.

Lemma In_dict_get {V : Type} (k : string) (d : dict V) :
  In k (map fst d) -> exists v : V, dict_get k d = Some v.
Proof.
  induction d as [|[k' v'] d IH]; simpl; [intros []|].
  destruct (String.eqb_spec k k') as [-> | Hne]; [eauto|].
  intros [E | Hin]; [congruence | auto].
Qed.





Example load_raises_on_dangling_link :
  load_documents
    (Dir [("uploaded_docs", Dir [("org", Dir [("broken.md", Dangling)])])])
  = Raise FileNotFoundError.
Proof. reflexivity. Qed.

Example load_raises_on_unreadable_file :
  load_documents
    (Dir [("uploaded_docs", Dir [("org", Dir [("secret.md", Unreadable)])])])
  = Raise PermissionError.
Proof. reflexivity. Qed.

Example load_skips_dangling_category :
  load_documents (Dir [("uploaded_docs", Dir [("org", Dangling)])])
  = Ok [("personal", []); ("org", [])].
Proof. reflexivity. Qed.


End LoaderExtras.

(* ===================================================================== *)
(** * Presentation, once more                                              *)
(* ===================================================================== *)

Section PresentationExtras.
Import ChatManager.

Lemma get_avatar_known (r : string) :
  mem r ["user_proxy"; "user"; "TextRAG_Agent"; "GraphRAG_Agent"] = true ->
  exists a : avatar, _get_avatar r = Ok a.
Proof.
  unfold _get_avatar, mem. cbn [existsb].
  destruct (String.eqb r "user_proxy"); [eauto|].
  destruct (String.eqb r "user"); [eauto|].
  cbn [orb]. intros ->. eauto.
Qed.

Lemma show_entry_result (i len : nat) (entry : message) (u : ui) :
  snd (show_entry i len entry u)
  = if passes entry then Ok tt else Raise AttributeError.
Proof.
  unfold show_entry, passes. cbv zeta.
  destruct (String.eqb (strip (get (content entry) "")) ""); [reflexivity|].
  cbn [orb].
  destruct (mem (get (role entry) "assistant")
              ["user_proxy"; "user"; "TextRAG_Agent"; "GraphRAG_Agent"]) eqn:Ek.
  - destruct (get_avatar_known _ Ek) as [a ->].
    unfold mem in Ek. cbn [existsb] in Ek.
    destruct (String.eqb (get (role entry) "assistant") "user_proxy");
      [reflexivity|].
    destruct (String.eqb (get (role entry) "assistant") "user");
      [reflexivity|].
    cbn [orb] in Ek. unfold mem. cbn [existsb]. now rewrite Ek.
  - rewrite get_avatar_other_role; [reflexivity|].
    now apply mem_false.
Qed.

Lemma show_from_result (entries : list message) (i len : nat) (u : ui) :
  snd (show_from i len entries u)
  = if forallb passes entries then Ok tt else Raise AttributeError.
Proof.
  revert i u; induction entries as [|entry rest IH]; intros i u;
    [reflexivity|].
  cbn [show_from forallb].
  pose proof (show_entry_result i len entry u) as H.
  destruct (show_entry i len entry u) as [u1 [[] | e]]; cbn [snd] in H.
  - destruct (passes entry); [|discriminate]. apply IH.
  - destruct (passes entry); [discriminate|]. cbn [snd andb]. exact H.
Qed.

(** X16.  [show_chat_history] returns normally exactly when every entry
    whose trimmed content is not empty has one of the four roles with an
    avatar; otherwise it ends in [AttributeError]. *)
Theorem show_chat_history_returns_iff (chat_history : list message) (u : ui) :
  (snd (show_chat_history chat_history u) = Ok tt
   <-> forall m : message,
         In m chat_history ->
         strip (get (content m) "") <> "" ->
         In (get (role m) "assistant")
           ["user_proxy"; "user"; "TextRAG_Agent"; "GraphRAG_Agent"])
  /\ (snd (show_chat_history chat_history u) = Ok tt
      \/ snd (show_chat_history chat_history u) = Raise AttributeError).
Proof.
  unfold show_chat_history. rewrite show_from_result.
  destruct (forallb passes chat_history) eqn:E.
  - split; [|now left]. split; [|reflexivity].
    intros _ m Hin Hne. rewrite forallb_forall in E.
    specialize (E m Hin). unfold passes in E.
    apply orb_prop in E as [E | E].
    + apply String.eqb_eq in E. contradiction.
    + now apply mem_spec.
  - split; [|now right]. split; [discriminate|].
    intros H. exfalso.
    assert (forallb passes chat_history = true); [|congruence].
    apply forallb_forall. intros m Hin. unfold passes.
    destruct (String.eqb_spec (strip (get (content m) "")) "") as [|Hne];
      [reflexivity|].
    cbn [orb]. apply mem_spec. now apply H.
Qed.

Lemma show_entry_written (i len : nat) (entry : message) (u : ui) :
  exists ne : list event,
    timeline (fst (show_entry i len entry u)) = (timeline u ++ ne)%list
    /\ Forall (written_as len) ne.
Proof.
  unfold show_entry. cbv zeta.
  destruct (String.eqb (strip (get (content entry) "")) "").
  { exists []. cbn [fst]. now rewrite app_nil_r. }
  destruct (_get_avatar (get (role entry) "assistant")) as [a | x].
  2:{ exists []. cbn [fst]. now rewrite app_nil_r. }
  destruct (String.eqb (get (role entry) "assistant") "user_proxy");
    [|destruct (String.eqb (get (role entry) "assistant") "user");
      [|destruct (mem (get (role entry) "assistant") _);
        [|rewrite getattr_USER_IMAGE]]];
    cbn [fst timeline];
    lazymatch goal with
    | |- context [(timeline u ++ [?ev])%list] => exists [ev]
    | |- _ => exists []; rewrite ?app_nil_r
    end;
    (split; [reflexivity|]); repeat constructor.
  unfold written_as, assistant_write. cbn [ev_written ev_entry ev_name].
  destruct (Nat.eqb_spec i (len - 1)); cbn [ev_written]; auto.
Qed.

Lemma show_from_written (entries : list message) (i len : nat) (u : ui) :
  exists ne : list event,
    timeline (fst (show_from i len entries u)) = (timeline u ++ ne)%list
    /\ Forall (written_as len) ne.
Proof.
  revert i u; induction entries as [|entry rest IH]; intros i u.
  - exists []. cbn [show_from fst]. now rewrite app_nil_r.
  - cbn [show_from].
    destruct (show_entry_written i len entry u) as (ne1 & Ht & He).
    destruct (show_entry i len entry u) as [u1 [[] | x]]; cbn [fst] in *.
    + destruct (IH (S i) u1) as (ne2 & Ht2 & He2).
      exists (ne1 ++ ne2)%list. rewrite Ht2, Ht, app_assoc.
      split; [reflexivity | now apply Forall_app].
    + now exists ne1.
Qed.

(** X17.  Only the last entry of the history is streamed word by word:
    every event [show_chat_history] adds is either a plain write under
    the name [user], a markdown write of an earlier entry, or a streamed
    write of the last entry, the latter two under the name [assistant]. *)
Theorem show_chat_history_streams_last (chat_history : list message) (u : ui) :
  exists new_events : list event,
    timeline (fst (show_chat_history chat_history u))
    = (timeline u ++ new_events)%list
    /\ Forall (written_as (List.length chat_history)) new_events.
Proof. apply show_from_written. Qed.

End PresentationExtras.

(* ===================================================================== *)
(** * The start page                                                       *)
(* ===================================================================== *)

Section StartPage.
Import StreamlitApp.

Lemma find_from_nonneg (k s : string) (i : Z) :
  (0 <= i)%Z -> (0 <=? find_from k s i)%Z = contains k s.
Proof.
  revert i; induction s as [|c s IH]; intros i Hi; cbn [find_from contains].
  - destruct (startswith k ""); [now apply Z.leb_le | reflexivity].
  - destruct (startswith k (String c s)); [now apply Z.leb_le|].
    cbn [orb]. apply IH. lia.
Qed.

(** X18.  The start page's [is_termination_msg] is true exactly when
    [ALL DONE] occurs in the text of the message: the test by [find]
    agrees with the test [in] that ends [show_chat_history]. *)
Theorem is_termination_msg_all_done
    (content_str : option string -> string) (x : ChatManager.message) :
  is_termination_msg content_str x = true
  <-> Substring "ALL DONE" (content_str (ChatManager.content x)).
Proof.
  unfold is_termination_msg, find.
  rewrite find_from_nonneg by lia. apply contains_spec.
Qed.

Lemma strip_of_all_done (c : string) :
  Substring "ALL DONE" c -> strip c <> "".
Proof.
  intros (a & b & ->) H. apply strip_empty in H.
  rewrite !chars_append, !forallb_app in H.
  apply andb_prop in H as [_ H]. apply andb_prop in H as [H _].
  discriminate.
Qed.

Lemma show_entry_all_done (d : ChatManager.message) (u : ui) :
  all_done d ->
  show_entry d u
  = ({| messages := (messages u ++ [store d])%list; timeline := timeline u |},
     Ok Return).
Proof.
  intros (c & Hc & Hsub). unfold show_entry. cbv zeta. rewrite Hc.
  pose proof (strip_of_all_done _ Hsub) as Hne.
  destruct (strip c) as [|x t]; [congruence|]. cbn [String.length Nat.eqb negb].
  apply contains_spec in Hsub. now rewrite Hsub.
Qed.

(** X19.  Whatever follows the first message that holds [ALL DONE] is
    neither stored nor shown: the history cut behind that message gives
    the same interface and the same outcome. *)
Theorem show_chat_history_after_all_done
    (h1 h2 : list ChatManager.message) (d : ChatManager.message) (u : ui) :
  all_done d ->
  show_chat_history (h1 ++ d :: h2)%list u
  = show_chat_history (h1 ++ [d])%list u.
Proof.
  intros Hd. revert u; induction h1 as [|m h1 IH]; intros u.
  - cbn [app show_chat_history]. now rewrite (show_entry_all_done _ _ Hd).
  - cbn [app show_chat_history].
    destruct (show_entry m u) as [u1 [[] | e]]; [apply IH | | ]; reflexivity.
Qed.

Lemma show_chat_history_after_all_done_witness :
  show_chat_history
    ([ChatManager.msg "user" "Hi"]
     ++ ChatManager.msg "assistant" "ALL DONE"
        :: [ChatManager.Message None None])%list
    (Ui [] [])
  = show_chat_history
      ([ChatManager.msg "user" "Hi"]
       ++ [ChatManager.msg "assistant" "ALL DONE"])%list
      (Ui [] []).
Proof.
  apply (show_chat_history_after_all_done
           [ChatManager.msg "user" "Hi"] [ChatManager.Message None None]).
  exists "ALL DONE". split; [reflexivity | apply Substring_refl].
Defined.

Lemma show_entry_stored (entry : ChatManager.message) (u : ui) :
  exists ne : list event,
    messages (fst (show_entry entry u)) = (messages u ++ [store entry])%list
    /\ timeline (fst (show_entry entry u)) = (timeline u ++ ne)%list
    /\ Forall (fun e => exists c : string,
                 e_text e = Some c /\ strip c <> ""
                 /\ ~ Substring "ALL DONE" c) ne
    /\ (snd (show_entry entry u) = Ok Continue
        \/ snd (show_entry entry u) = Ok Return
        \/ snd (show_entry entry u) = Raise AttributeError).
Proof.
  unfold show_entry. cbv zeta.
  destruct (ChatManager.content entry) as [c|].
  2:{ exists []. cbn [fst snd messages timeline]. rewrite app_nil_r. auto 6. }
  destruct (negb (Nat.eqb (String.length (strip c)) 0)) eqn:Eb.
  2:{ exists []. cbn [fst snd messages timeline]. rewrite app_nil_r. auto 6. }
  destruct (contains "ALL DONE" c) eqn:Ed.
  { exists []. cbn [fst snd messages timeline]. rewrite app_nil_r. auto 6. }
  assert (Hshown : strip c <> "" /\ ~ Substring "ALL DONE" c).
  { split; [|now apply contains_false].
    intros E. rewrite E in Eb. discriminate. }
  destruct (not_assistant (ChatManager.role entry));
    (eexists [_]; cbn [fst snd emit messages timeline];
     repeat split; auto; repeat constructor; eexists; split;
     [reflexivity | exact Hshown]).
Qed.

Lemma show_chat_history_stored (h : list ChatManager.message) (u : ui) :
  exists (k : nat) (ne : list event),
    messages (fst (show_chat_history h u))
    = (messages u ++ map store (firstn k h))%list
    /\ timeline (fst (show_chat_history h u)) = (timeline u ++ ne)%list
    /\ Forall (fun e => exists c : string,
                 e_text e = Some c /\ strip c <> ""
                 /\ ~ Substring "ALL DONE" c) ne
    /\ (snd (show_chat_history h u) = Ok tt
        \/ snd (show_chat_history h u) = Raise AttributeError).
Proof.
  revert u; induction h as [|entry rest IH]; intros u.
  - exists 0, []. cbn [show_chat_history fst snd firstn map].
    rewrite !app_nil_r. auto.
  - cbn [show_chat_history].
    destruct (show_entry_stored entry u) as (ne1 & Hm & Ht & He & Hs).
    destruct (show_entry entry u) as [u1 [[|] | e]]; cbn [fst snd] in *.
    + destruct (IH u1) as (k & ne2 & Hm2 & Ht2 & He2 & Hs2).
      exists (S k), (ne1 ++ ne2)%list. cbn [firstn map].
      rewrite Hm2, Ht2, Hm, Ht, <- !app_assoc.
      repeat split; auto. now apply Forall_app.
    + exists 1, ne1. cbn [firstn map]. auto.
    + exists 1, ne1. cbn [firstn map].
      repeat split; auto. right.
      destruct Hs as [Hs | [Hs | Hs]]; congruence.
Qed.

(** X20.  The start page's [show_chat_history] stores the entries of a
    leading part of the history, one stored message per entry, blank ones
    and the one holding [ALL DONE] included; what it shows is never blank
    and never holds [ALL DONE]; and it ends normally or in
    [AttributeError], the latter at an entry without content. *)
Theorem show_chat_history_stores_prefix
    (chat_hsitory : list ChatManager.message) (u : ui) :
  exists (k : nat) (new_events : list event),
    messages (fst (show_chat_history chat_hsitory u))
    = (messages u ++ map store (firstn k chat_hsitory))%list
    /\ timeline (fst (show_chat_history chat_hsitory u))
       = (timeline u ++ new_events)%list
    /\ Forall (fun e => exists c : string,
                 e_text e = Some c /\ strip c <> ""
                 /\ ~ Substring "ALL DONE" c) new_events
    /\ (snd (show_chat_history chat_hsitory u) = Ok tt
        \/ snd (show_chat_history chat_hsitory u) = Raise AttributeError).
Proof. apply show_chat_history_stored. Qed.

Lemma show_chat_history_imageless (h : list ChatManager.message) (u : ui) :
  Forall (fun m => m_image m = None) (messages u) ->
  Forall (fun m => m_image m = None) (messages (fst (show_chat_history h u))).
Proof.
  intros Hu.
  destruct (show_chat_history_stored h u) as (k & ne & Hm & _).
  rewrite Hm. apply Forall_app. split; [exact Hu|].
  apply Forall_map, Forall_forall. reflexivity.
Qed.

Lemma replay_entry_names (m : session_message) :
  m_image m = None ->
  forall e : event,
    In e (replay_entry m) -> e_name e = "user" \/ e_name e = "assistant".
Proof.
  intros Hi e. unfold replay_entry. rewrite Hi.
  destruct (String.eqb_spec (m_role m) "user") as [Hu | _].
  - destruct (truthy user_image); intros [<- | []]; now left.
  - destruct (String.eqb_spec (m_role m) "assistant") as [Ha | _].
    + intros [<- | []]. now right.
    + intros [].
Qed.

Example other_role_shown_live_but_not_replayed :
  let u := fst (show_chat_history [ChatManager.msg "user_proxy" "Welcome."]
                  (Ui [] [])) in
  timeline u = [Event "user_proxy" None (Some "Welcome.")]
  /\ replay (messages u) = [].
Proof. split; reflexivity. Qed.

(** X21.  After a [chat], the replay of the stored messages on the next
    run shows only messages stored under the role [user] or [assistant]:
    no message carries an image, so one of any other role, though shown
    when it arrived, is not shown again. *)
Theorem replay_after_chat
    (initiate_chat : string -> list ChatManager.message)
    (prompt : string) (u : ui) :
  Forall (fun m => m_image m = None) (messages u) ->
  Forall (fun m => m_image m = None)
    (messages (fst (chat initiate_chat prompt u)))
  /\ forall e : event,
       In e (replay (messages (fst (chat initiate_chat prompt u)))) ->
       e_name e = "user" \/ e_name e = "assistant".
Proof.
  intros Hu.
  assert (Himg : Forall (fun m => m_image m = None)
                   (messages (fst (chat initiate_chat prompt u)))).
  { unfold chat. cbv zeta. apply show_chat_history_imageless.
    cbn [messages emit]. apply Forall_app. split; [exact Hu|].
    repeat constructor. }
  split; [exact Himg|].
  intros e He. unfold replay in He. apply in_flat_map in He as (m & Hin & He).
  rewrite Forall_forall in Himg.
  exact (replay_entry_names m (Himg m Hin) e He).
Qed.

Lemma replay_after_chat_witness :
  Forall (fun m => m_image m = None)
    (messages
       (fst (chat (fun _ : string => [ChatManager.msg "user_proxy" "Welcome."])
               "Hello" (Ui [] [])))).
Proof.
  apply (replay_after_chat
           (fun _ : string => [ChatManager.msg "user_proxy" "Welcome."])
           "Hello" (Ui [] [])).
  constructor.
Defined.

End StartPage.

(* ===================================================================== *)
(** * How the parts compose                                                *)
(* ===================================================================== *)

Section Composition.
Import ChatManager DocumentLoader.

(** X22.  Once the documents have loaded and the conversation has returned
    a history, [generate_response] returns exactly when [should_stop] can
    read the last three messages of that history, and raises [KeyError]
    when it cannot: older messages and the sanitizer never make it
    fail. *)
Theorem generate_response_returns_iff
    (initiate_chat : agent -> string -> list message)
    (cwd : node) (docs : documents) (prompt : string) (h : list message) :
  load_documents cwd = Ok docs ->
  initiate_chat
    (if is_org_related prompt then graph_agent else text_agent)
    (if is_org_related prompt
     then org_final_prompt docs prompt
     else personal_final_prompt docs prompt)
  = h ->
  ((exists r : list message,
      generate_response initiate_chat cwd prompt = Ok r)
   <-> forallb readable (last_n 3 h) = true)
  /\ (forallb readable (last_n 3 h) = false ->
      generate_response initiate_chat cwd prompt = Raise KeyError).
Proof.
  intros Hl Hh.
  rewrite (generate_response_loaded initiate_chat _ _ _ Hl).
  unfold run_branch, should_stop, branch_agent, branch_prompt.
  rewrite Hh, last_few_of_readable.
  destruct (forallb readable (last_n 3 h)); cbn [bind].
  - split; [|discriminate]. split; [reflexivity | eauto].
  - split; [|reflexivity]. split; [intros [r H]; discriminate | discriminate].
Qed.

Lemma generate_response_returns_iff_witness :
  generate_response
    (fun _ _ => [Message None None; msg "user" "a"; msg "user" "b";
                 Message (Some "TextRAG_Agent") None])
    (Dir []) "Hello"
  = Raise KeyError.
Proof.
  destruct (generate_response_returns_iff
              (fun _ _ => [Message None None; msg "user" "a"; msg "user" "b";
                           Message (Some "TextRAG_Agent") None])
              (Dir []) [("personal", []); ("org", [])] "Hello"
              [Message None None; msg "user" "a"; msg "user" "b";
               Message (Some "TextRAG_Agent") None] eq_refl eq_refl)
    as [_ H].
  apply H. reflexivity.
Defined.

(** X25.  Cleaning a cleaned history changes nothing. *)
Theorem clean_history_idempotent (chat_history : list message) :
  clean_history (clean_history chat_history) = clean_history chat_history.
Proof.
  unfold clean_history. induction chat_history as [|m l IH]; [reflexivity|].
  cbn [filter]. destruct (negb (leaks m)) eqn:E; [|exact IH].
  cbn [filter]. now rewrite E, IH.
Qed.

(** ** The order of the loaded documents *)

Lemma dict_set_new {V : Type} (k : string) (v : V) (d : dict V) :
  ~ In k (map fst d) -> dict_set k v d = (d ++ [(k, v)])%list.
Proof.
  induction d as [|[k' v'] d IH]; intros Hk; [reflexivity|].
  cbn [dict_set app]. cbn [map fst In] in Hk.
  destruct (String.eqb_spec k k') as [-> | _]; [tauto|].
  rewrite IH; [reflexivity | tauto].
Qed.

Lemma load_files_keys (cwd : node) (p : path) (category : string) :
  forall (fnames : list string) (docs docs' : documents) (inner : dict string),
    dict_get category docs = Some inner ->
    load_files cwd p category fnames docs = Ok docs' ->
    exists inner' : dict string,
      docs' = dict_set category inner' docs
      /\ (NoDup (map fst inner ++ fnames)%list ->
          map fst inner'
          = (map fst inner ++ filter (endswith ".md") fnames)%list).
Proof.
  induction fnames as [|f0 rest IH]; intros docs docs' inner Hget Hl.
  - cbn [load_files] in Hl. injection Hl as <-. exists inner.
    split; [now rewrite (dict_set_get_same _ _ _ Hget)|].
    intros _. cbn [filter]. now rewrite app_nil_r.
  - cbn [load_files filter] in *. destruct (endswith ".md" f0).
    + destruct (read_text cwd (join_path p f0)) as [t | e]; [|discriminate].
      cbn [bind] in Hl. unfold getitem in Hl at 1. rewrite Hget in Hl.
      cbn [bind] in Hl.
      destruct (IH _ _ (dict_set f0 t inner) (dict_get_set_same _ _ _) Hl)
        as (inner' & -> & Hkeys).
      exists inner'. split; [now rewrite dict_set_set|].
      intros Hnd.
      assert (Hnew : ~ In f0 (map fst inner)).
      { apply NoDup_remove_2 in Hnd. intros Hin. apply Hnd.
        apply in_or_app. now left. }
      rewrite (dict_set_new _ _ _ Hnew) in Hkeys.
      rewrite map_app in Hkeys. cbn [map fst] in Hkeys.
      rewrite <- !app_assoc in Hkeys. cbn [app] in Hkeys.
      exact (Hkeys Hnd).
    + destruct (IH _ _ inner Hget Hl) as (inner' & -> & Hkeys).
      exists inner'. split; [reflexivity|].
      intros Hnd. apply Hkeys. now apply NoDup_remove_1 in Hnd.
Qed.

Lemma load_category_keys (cwd : node) (category : string) (p : path)
    (docs docs' : documents) :
  dict_get category docs = Some [] ->
  (if exists_ cwd p
   then fnames <- listdir cwd p ;; load_files cwd p category fnames docs
   else Ok docs) = Ok docs' ->
  exists inner : dict string,
    docs' = dict_set category inner docs
    /\ forall entries : list (string * node),
         resolve cwd p = Some (Dir entries) ->
         NoDup (map fst entries) ->
         map fst inner = filter (endswith ".md") (map fst entries).
Proof.
  intros Hget. unfold exists_, listdir.
  destruct (resolve cwd p) as [[t | entries | |]|]; cbn [bind];
    try discriminate.
  - intros Hl.
    destruct (load_files_keys cwd p category _ _ _ _ Hget Hl)
      as (inner & -> & Hkeys).
    exists inner. split; [reflexivity|].
    intros entries' [= <-] Hnd. now apply Hkeys.
  - intros [= <-]. exists []. split; [|discriminate].
    now rewrite (dict_set_get_same _ _ _ Hget).
  - intros [= <-]. exists []. split; [|discriminate].
    now rewrite (dict_set_get_same _ _ _ Hget).
Qed.

(** X23.  The documents of a category are loaded in the order the
    directory lists its entries: when the listing has no name twice, the
    keys of the category are the listed names that end in [.md], in the
    order listed. *)
Theorem load_documents_keeps_listing_order
    (cwd : node) (docs : documents) (category : string) (p : path)
    (entries : list (string * node)) :
  In (category, p) base_dirs ->
  resolve cwd p = Some (Dir entries) ->
  NoDup (map fst entries) ->
  load_documents cwd = Ok docs ->
  map fst (dict_get_default category [] docs)
  = filter (endswith ".md") (map fst entries).
Proof.
  intros Hin Hp Hnd. unfold load_documents, items, base_dirs.
  rewrite load_categories_cons.
  destruct (if exists_ cwd ["uploaded_docs"; "personal"] then _ else _)
    as [docs1 | e1] eqn:H1; [|discriminate].
  cbn [bind]. rewrite load_categories_cons.
  destruct (load_category_keys cwd "personal" ["uploaded_docs"; "personal"]
              [("personal", []); ("org", [])] docs1 eq_refl H1)
    as (inner1 & -> & Hk1).
  change (dict_set "personal" inner1 [("personal", []); ("org", [])])
    with [("personal", inner1); ("org", @nil (string * string))].
  destruct (if exists_ cwd ["uploaded_docs"; "org"] then _ else _)
    as [docs2 | e2] eqn:H2; [|discriminate].
  cbn [bind load_categories]. intros [= <-].
  destruct (load_category_keys cwd "org" ["uploaded_docs"; "org"]
              [("personal", inner1); ("org", [])] docs2 eq_refl H2)
    as (inner2 & -> & Hk2).
  destruct Hin as [[= <- <-] | [[= <- <-] | []]].
  - now apply Hk1.
  - now apply Hk2.
Qed.

Lemma load_documents_keeps_listing_order_witness :
  map fst (dict_get_default "org" [] chart_docs)
  = filter (endswith ".md") (map fst [("chart.md", File (Some chart_md))]).
Proof.
  apply (load_documents_keeps_listing_order chart_cwd chart_docs "org"
           ["uploaded_docs"; "org"]).
  - right. left. reflexivity.
  - reflexivity.
  - repeat constructor. intros [].
  - reflexivity.
Defined.

End Composition.

(* ===================================================================== *)
(** * Trimming before the phrase search                                    *)
(* ===================================================================== *)

Section Trimming.
Import ChatManager.

Lemma isspace_lower_char (c : ascii) : isspace (lower_char c) = isspace c.
Proof.
  destruct c as [[] [] [] [] [] [] [] []]; vm_compute; reflexivity.
Qed.

Lemma blank_lower (a : string) :
  forallb isspace (list_ascii_of_string (lower a))
  = forallb isspace (list_ascii_of_string a).
Proof.
  induction a as [|c a IH]; [reflexivity|].
  cbn [lower list_ascii_of_string forallb].
  now rewrite isspace_lower_char, IH.
Qed.

Lemma lstrip_split (s : string) :
  exists a : string,
    s = a ++ lstrip s /\ forallb isspace (list_ascii_of_string a) = true.
Proof.
  induction s as [|c s (a & Hs & Ha)]; [now exists ""|].
  cbn [lstrip]. destruct (isspace c) eqn:Ec.
  - exists (String c a). cbn [append list_ascii_of_string forallb].
    rewrite Ec, Ha. split; [now rewrite <- Hs | reflexivity].
  - now exists "".
Qed.

Lemma rstrip_split (s : string) :
  exists b : string,
    s = rstrip s ++ b /\ forallb isspace (list_ascii_of_string b) = true.
Proof.
  induction s as [|c s (b & Hs & Hb)]; [now exists ""|].
  cbn [rstrip]. destruct (rstrip s) as [|d r] eqn:Er.
  - assert (Hall : forallb isspace (list_ascii_of_string s) = true)
      by now apply rstrip_empty.
    destruct (isspace c) eqn:Ec.
    + exists (String c s). cbn [append list_ascii_of_string forallb].
      now rewrite Ec, Hall.
    + now exists s.
  - exists b. split; [|exact Hb]. cbn [append] in Hs |- *. now rewrite <- Hs.
Qed.

Lemma strip_split (s : string) :
  exists a b : string,
    s = a ++ strip s ++ b
    /\ forallb isspace (list_ascii_of_string a) = true
    /\ forallb isspace (list_ascii_of_string b) = true.
Proof.
  destruct (lstrip_split s) as (a & Hs & Ha).
  destruct (rstrip_split (lstrip s)) as (b & Hl & Hb).
  exists a, b. unfold strip. now rewrite <- Hl, <- Hs.
Qed.

Lemma Substring_behind_blank (x : ascii) (p' A X : string) :
  isspace x = false ->
  forallb isspace (list_ascii_of_string A) = true ->
  Substring (String x p') (A ++ X) -> Substring (String x p') X.
Proof.
  intros Hx. induction A as [|c A IH]; intros HA H; [exact H|].
  cbn [list_ascii_of_string forallb] in HA. apply andb_prop in HA as [Hc HA].
  apply IH; [exact HA|].
  apply (Substring_not_at_head _ _ c); [|exact H].
  cbn [append startswith]. destruct (Ascii.eqb_spec x c) as [-> | _];
    [congruence | reflexivity].
Qed.

Lemma Substring_before_blank (q : string) (y : ascii) (M B : string) :
  isspace y = false ->
  forallb isspace (list_ascii_of_string B) = true ->
  Substring (q ++ String y "") (M ++ B) -> Substring (q ++ String y "") M.
Proof.
  intros Hy HB (u & v & H).
  destruct (Nat.le_gt_cases (String.length (u ++ q ++ String y ""))
              (String.length M)) as [Hle | Hgt].
  - rewrite <- !append_assoc in H. rewrite (append_assoc u) in H.
    symmetry in H.
    destruct (append_split _ _ _ _ H Hle) as (m & -> & _).
    exists u, m. now rewrite !append_assoc.
  - exfalso.
    assert (Hlen : String.length M <= String.length (u ++ q)).
    { rewrite !append_length in *. cbn [String.length] in Hgt. lia. }
    assert (H' : M ++ B = (u ++ q) ++ String y v).
    { rewrite H, !append_assoc. reflexivity. }
    destruct (append_split _ _ _ _ H' Hlen) as (m & _ & ->).
    rewrite chars_append, forallb_app in HB.
    apply andb_prop in HB as [_ HB].
    cbn [list_ascii_of_string forallb] in HB. rewrite Hy in HB. discriminate.
Qed.

Lemma phrase_inside_trimmed (x : ascii) (p' q : string) (y : ascii) (s : string) :
  String x p' = q ++ String y "" ->
  isspace x = false ->
  isspace y = false ->
  Substring (String x p') (lower s) ->
  Substring (String x p') (lower (strip s)).
Proof.
  intros Hq Hx Hy H.
  destruct (strip_split s) as (a & b & Hs & Ha & Hb).
  rewrite Hs, !lower_append in H.
  apply Substring_behind_blank in H; [|exact Hx | now rewrite blank_lower].
  rewrite Hq in H |- *.
  apply Substring_before_blank in H; [exact H | exact Hy |].
  now rewrite blank_lower.
Qed.

Lemma strip_Substring (s : string) : Substring (strip s) s.
Proof. destruct (strip_split s) as (a & b & Hs & _). now exists a, b. Qed.

(** X24.  Trimming a reply before the phrase search, as [should_stop]
    does, changes nothing: a reply holds a phrase once trimmed and
    lower-cased exactly when it holds it lower-cased only, which is the
    test [is_termination_msg] makes. *)
Theorem generic_in_ignores_trimming (c : string) :
  generic_in (lower (strip c)) = generic_in (lower c).
Proof.
  apply eq_true_iff_eq. rewrite !generic_in_lower.
  split; intros (phrase & Hin & Hsub); exists phrase; (split; [exact Hin|]).
  - apply (Substring_trans _ _ _ Hsub).
    apply Substring_lower, strip_Substring.
  - destruct Hin as [<- | [<- | [<- | [<- | []]]]].
    + now apply (phrase_inside_trimmed _ _ "need more informatio" "n"%char).
    + now apply (phrase_inside_trimmed _ _ "please provide a questio" "n"%char).
    + now apply (phrase_inside_trimmed _ _ "please clarif" "y"%char).
    + now apply (phrase_inside_trimmed _ _ "no relevant answe" "r"%char).
Qed.

End Trimming.
